(** * BillUploader: a shallow embedding of the scheduled jobs, the manual
    trigger endpoints, the job store registration and the API client.

    Sources embedded:
    - services/Schedulers.py    : upload_bills_job, send_weekly_report_job,
                                  schedule_jobs (the module main.py imports)
    - services/ReceiptService.py: the sibling revision of the report window
    - services/ReceiptApiClient.py : ReceiptApiClient.__init__,
                                  upload_receipts, send_report_by_email
    - main.py                   : trigger_upload_bills, trigger_weekly_report *)

From Stdlib Require Import String Ascii List ZArith Bool Lia.
From Stdlib Require Import DecimalString DecimalNat.
Import ListNotations.
Open Scope string_scope.

(** ** Python strings (ASCII code points) *)

(** [str.lower] on one character. *)
Definition py_lower_char (c : ascii) : ascii :=
  let n := nat_of_ascii c in
  if (65 <=? n)%nat && (n <=? 90)%nat then ascii_of_nat (n + 32) else c.

(** [str.lower]. *)
Fixpoint py_lower (s : string) : string :=
  match s with
  | EmptyString => EmptyString
  | String c s' => String (py_lower_char c) (py_lower s')
  end.

(** [s.endswith(suffix)]. *)
Definition py_endswith (s suffix : string) : bool :=
  (String.length suffix <=? String.length s)%nat &&
  String.eqb
    (substring (String.length s - String.length suffix) (String.length suffix) s)
    suffix.

(** [s.endswith((a, b, ...))]: true when one of the suffixes matches. *)
Definition py_endswith_any (s : string) (suffixes : list string) : bool :=
  existsb (py_endswith s) suffixes.

(** [os.path.join(a, b)] (POSIX). *)
Definition os_path_join (a b : string) : string :=
  match b with
  | String "/" _ => b
  | _ =>
    if String.eqb a "" then b
    else if py_endswith a "/" then a ++ b
    else a ++ "/" ++ b
  end.

(** Python truthiness of an optional string ([None], [""] are falsy). *)
Definition py_truthy (s : option string) : bool :=
  match s with
  | None => false
  | Some v => negb (String.eqb v "")
  end.

(** [a or b] on optional strings. *)
Definition py_or (a : option string) (b : string) : string :=
  match a with
  | Some v => if py_truthy a then v else b
  | None => b
  end.

(** ** Exceptions, log messages and observable events *)

Inductive exn :=
| FileNotFoundError (path : string)   (** [os.listdir] of a missing directory *)
| OSError (path : string)             (** [open] / [os.remove] failures *)
| HTTPStatusError                     (** [response.raise_for_status()] *)
| OverflowError                       (** datetime arithmetic out of range *)
| HTTPException (status_code : Z) (detail : string).

Inductive level := INFO | ERROR.

(** The log lines of the source, by call site. *)
Inductive message :=
| MsgNoBillFiles (dir : string)
| MsgAttempting (n : nat)
| MsgUploaded (n : nat)
| MsgRemoved (path : string)
| MsgRemoveError (path : string)
| MsgUploadMethodError
| MsgUploadingError
| MsgReportSent
| MsgReportError
| MsgManualUpload
| MsgManualReport.

Inductive event :=
| EOpen (path : string) (handle : nat)     (** [open(path, 'rb')] *)
| EClose (handle : nat)                    (** [file.close()] *)
| ESession (base_url : string)             (** an [httpx.AsyncClient] is created *)
| ESessionClose                            (** [client.aclose()] *)
| EUploadCall (files : list nat)           (** [POST /bills] *)
| EReportCall (payload : list (string * string)) (** [POST /reports] *)
| ERemove (path : string) (ok : bool)      (** [os.remove(path)] and its outcome *)
| ELog (lv : level) (msg : message).

(** ** Python [datetime] (naive), as in CPython's pure-Python [datetime]

    A date is kept as its proleptic Gregorian ordinal ([date.toordinal()]),
    from which year, month and day are derived by [_ord2ymd]; the time of day
    is kept field by field. *)

Module PyDatetime.

Definition MAXORDINAL : Z := 3652059.

Record datetime := mk_datetime {
  ordinal : Z; hour : Z; minute : Z; second : Z; microsecond : Z }.

Definition DAYS_BEFORE_MONTH (m : Z) : Z :=
  match m with
  | 1 => 0 | 2 => 31 | 3 => 59 | 4 => 90 | 5 => 120 | 6 => 151
  | 7 => 181 | 8 => 212 | 9 => 243 | 10 => 273 | 11 => 304 | 12 => 334
  | _ => -1
  end%Z.

Definition DAYS_IN_MONTH (m : Z) : Z :=
  match m with
  | 1 => 31 | 2 => 28 | 3 => 31 | 4 => 30 | 5 => 31 | 6 => 30
  | 7 => 31 | 8 => 31 | 9 => 30 | 10 => 31 | 11 => 30 | 12 => 31
  | _ => -1
  end%Z.

Definition is_leap (y : Z) : bool :=
  (Z.eqb (y mod 4) 0 && (negb (Z.eqb (y mod 100) 0) || Z.eqb (y mod 400) 0))%Z.

Definition days_before_year (year : Z) : Z :=
  let y := (year - 1)%Z in (y * 365 + y / 4 - y / 100 + y / 400)%Z.

Definition days_before_month (year month : Z) : Z :=
  (DAYS_BEFORE_MONTH month + if (2 <? month)%Z && is_leap year then 1 else 0)%Z.

Definition ymd2ord (year month day : Z) : Z :=
  (days_before_year year + days_before_month year month + day)%Z.

Definition DI400Y : Z := 146097.
Definition DI100Y : Z := 36524.
Definition DI4Y : Z := 1461.

(** [_ord2ymd]. *)
Definition ord2ymd (n0 : Z) : Z * Z * Z :=
  let n := (n0 - 1)%Z in
  let n400 := (n / DI400Y)%Z in let n := (n mod DI400Y)%Z in
  let year := (n400 * 400 + 1)%Z in
  let n100 := (n / DI100Y)%Z in let n := (n mod DI100Y)%Z in
  let n4 := (n / DI4Y)%Z in let n := (n mod DI4Y)%Z in
  let n1 := (n / 365)%Z in let n := (n mod 365)%Z in
  let year := (year + n100 * 100 + n4 * 4 + n1)%Z in
  if (Z.eqb n1 4 || Z.eqb n100 4)%Z then ((year - 1)%Z, 12%Z, 31%Z)
  else
    let leapyear := (Z.eqb n1 3 && (negb (Z.eqb n4 24) || Z.eqb n100 3))%Z in
    let month := Z.shiftr (n + 50) 5 in
    let preceding :=
      (DAYS_BEFORE_MONTH month + if (2 <? month)%Z && leapyear then 1 else 0)%Z in
    let '(month, preceding) :=
      if (n <? preceding)%Z then
        let month := (month - 1)%Z in
        (month, (preceding - (DAYS_IN_MONTH month +
                   if Z.eqb month 2 && leapyear then 1 else 0))%Z)
      else (month, preceding) in
    (year, month, (n - preceding + 1)%Z).

(** [datetime(year, month, day, hour, minute, second, microsecond)]. *)
Definition datetime_of (y mo d h mi s us : Z) : datetime :=
  mk_datetime (ymd2ord y mo d) h mi s us.

(** [dt.weekday()]: Monday is 0, Sunday is 6. *)
Definition weekday (dt : datetime) : Z := ((ordinal dt + 6) mod 7)%Z.

(** [dt - timedelta(days=k)]; [None] is the [OverflowError] of
    [datetime.__add__] when the result leaves [1 .. MAXORDINAL]. *)
Definition sub_days (dt : datetime) (k : Z) : option datetime :=
  let o := (ordinal dt - k)%Z in
  if (0 <? o)%Z && (o <=? MAXORDINAL)%Z
  then Some (mk_datetime o (hour dt) (minute dt) (second dt) (microsecond dt))
  else None.

(** [dt.replace(hour=h, minute=m, second=s, microsecond=us)]. *)
Definition replace_time (dt : datetime) (h m s us : Z) : datetime :=
  mk_datetime (ordinal dt) h m s us.

(** Ordering of datetimes: date first, then the time of day. *)
Definition key (dt : datetime) : list Z :=
  [ordinal dt; hour dt; minute dt; second dt; microsecond dt].

Fixpoint lex_le (a b : list Z) : bool :=
  match a, b with
  | x :: a', y :: b' => (x <? y)%Z || (Z.eqb x y && lex_le a' b')
  | _, _ => true
  end.

Definition dt_le (a b : datetime) : bool := lex_le (key a) (key b).

(** Decimal digits of a non-negative integer, left-padded with zeros. *)
Fixpoint digits_rev (fuel : nat) (n : Z) : list ascii :=
  match fuel with
  | O => []
  | S f => ascii_of_nat (48 + Z.to_nat (n mod 10)) :: digits_rev f (n / 10)
  end.

Definition zpad (width : nat) (n : Z) : string :=
  string_of_list_ascii (rev (digits_rev width n)).

(** [dt.isoformat()]: [YYYY-MM-DDTHH:MM:SS] and [.ffffff] when the
    microsecond is non-zero. *)
Definition isoformat (dt : datetime) : string :=
  let '(y, mo, d) := ord2ymd (ordinal dt) in
  zpad 4 y ++ "-" ++ zpad 2 mo ++ "-" ++ zpad 2 d ++ "T" ++
  zpad 2 (hour dt) ++ ":" ++ zpad 2 (minute dt) ++ ":" ++ zpad 2 (second dt) ++
  (if Z.eqb (microsecond dt) 0 then "" else "." ++ zpad 6 (microsecond dt)).

(** The invariants of a [datetime] value. *)
Definition valid (dt : datetime) : Prop :=
  (1 <= ordinal dt <= MAXORDINAL /\ 0 <= hour dt < 24 /\ 0 <= minute dt < 60 /\
   0 <= second dt < 60 /\ 0 <= microsecond dt < 1000000)%Z.

End PyDatetime.

Import PyDatetime.

(** ** The run environment and the job monad

    A [world] fixes what the outside answers during one run: the directory
    listing, which paths [open] and [os.remove] accept, whether the remote
    API answers 2xx, the environment variables and the clock. *)

Record world := mk_world {
  w_env_bills_directory : option string;   (** [BILLS_DIRECTORY] *)
  w_env_receipt_api_url : option string;   (** [RECEIPT_API_URL] *)
  w_listing : option (list string);        (** [os.listdir]; [None]: it raises *)
  w_can_open : string -> bool;             (** [open(path, 'rb')] succeeds *)
  w_can_remove : string -> bool;           (** [os.remove(path)] succeeds *)
  w_upload_ok : bool;                      (** [POST /bills] answers 2xx *)
  w_report_ok : bool;                      (** [POST /reports] answers 2xx *)
  w_now : datetime                         (** [datetime.now()] *)
}.

(** The process state: the file handles opened so far ([true] while open,
    indexed by handle) and the trace of observable events. *)
Record state := mk_state { handles : list bool; trace : list event }.

Inductive result (A : Type) := Ok (a : A) | Exc (e : exn).
Arguments Ok {A} a.
Arguments Exc {A} e.

Definition M (A : Type) := world -> state -> result A * state.

Definition ret {A} (a : A) : M A := fun _ s => (Ok a, s).
Definition raise {A} (e : exn) : M A := fun _ s => (Exc e, s).
Definition bind {A B} (m : M A) (k : A -> M B) : M B :=
  fun w s => match m w s with
             | (Ok a, s') => k a w s'
             | (Exc e, s') => (Exc e, s')
             end.
Definition ask : M world := fun w s => (Ok w, s).

Notation "x <- m ;; k" := (bind m (fun x => k))
  (at level 61, m at next level, right associativity).
Notation "m ;;; k" := (bind m (fun _ => k))
  (at level 61, right associativity).

(** [try: m except Exception as e: h(e)]. *)
Definition try_except {A} (m : M A) (h : exn -> M A) : M A :=
  fun w s => match m w s with
             | (Exc e, s') => h e w s'
             | r => r
             end.

(** [try: m finally: f]: [f] runs on both exits; an exception of [f]
    replaces the outcome of [m]. *)
Definition try_finally {A} (m : M A) (f : M unit) : M A :=
  fun w s => let '(r, s1) := m w s in
             match f w s1 with
             | (Ok _, s2) => (r, s2)
             | (Exc e, s2) => (Exc e, s2)
             end.

Definition emit (e : event) : M unit :=
  fun _ s => (Ok tt, mk_state (handles s) (trace s ++ [e])).

Definition log (lv : level) (msg : message) : M unit := emit (ELog lv msg).

(** Update the [i]-th element of a list (unchanged out of range). *)
Fixpoint set_nth {A} (l : list A) (i : nat) (x : A) : list A :=
  match l, i with
  | [], _ => []
  | _ :: l', O => x :: l'
  | y :: l', S i' => y :: set_nth l' i' x
  end.

(** ** Operating-system primitives *)

(** [BILLS_DIRECTORY = os.environ.get("BILLS_DIRECTORY", "./bills")]. *)
Definition BILLS_DIRECTORY (w : world) : string :=
  match w_env_bills_directory w with Some d => d | None => "./bills" end.

Definition os_listdir (dir : string) : M (list string) :=
  fun w s => match w_listing w with
             | Some l => (Ok l, s)
             | None => (Exc (FileNotFoundError dir), s)
             end.

(** [open(path, 'rb')]: a fresh handle, or [OSError]. *)
Definition py_open (path : string) : M nat :=
  fun w s =>
    if w_can_open w path then
      let h := List.length (handles s) in
      (Ok h, mk_state (handles s ++ [true]) (trace s ++ [EOpen path h]))
    else (Exc (OSError path), s).

(** [file.close()]. *)
Definition file_close (h : nat) : M unit :=
  fun _ s => (Ok tt, mk_state (set_nth (handles s) h false) (trace s ++ [EClose h])).

(** [os.remove(path)]. *)
Definition os_remove (path : string) : M unit :=
  fun w s =>
    if w_can_remove w path
    then (Ok tt, mk_state (handles s) (trace s ++ [ERemove path true]))
    else (Exc (OSError path), mk_state (handles s) (trace s ++ [ERemove path false])).

(** ** services/ReceiptApiClient.py *)

(** A Python dict with string values, in insertion order. *)
Definition dict := list (string * string).

(** [d[k] = v]: overwrite in place, or append a new key at the end. *)
Fixpoint dict_set (d : dict) (k v : string) : dict :=
  match d with
  | [] => [(k, v)]
  | (k', v') :: d' => if String.eqb k k' then (k, v) :: d' else (k', v') :: dict_set d' k v
  end.

(** [d.get(k)]. *)
Fixpoint dict_get (d : dict) (k : string) : option string :=
  match d with
  | [] => None
  | (k', v') :: d' => if String.eqb k k' then Some v' else dict_get d' k
  end.

Record ReceiptApiClient := mk_client { base_url : string; verify_ssl : bool }.

(** [ReceiptApiClient.__init__(base_url, timeout, verify_ssl)]:
    [self.base_url = base_url or os.environ.get("RECEIPT_API_URL",
    "http://localhost:5000")], then the [httpx.AsyncClient] is created on it.
    services/Schedulers.py constructs the same interface under the name
    [ReceiptApiService]; its constructor is this one. *)
Definition ReceiptApiClient_init (base_url_arg : option string) (verify : bool)
  : M ReceiptApiClient :=
  w <- ask ;;
  let env_url := match w_env_receipt_api_url w with
                 | Some u => u | None => "http://localhost:5000" end in
  let url := py_or base_url_arg env_url in
  emit (ESession url) ;;;
  ret (mk_client url verify).

(** [ReceiptApiClient.close()], run by [__aexit__]. *)
Definition client_close (c : ReceiptApiClient) : M unit := emit ESessionClose.

(** [async with ctor as service: body(service)]. *)
Definition async_with {A} (ctor : M ReceiptApiClient) (body : ReceiptApiClient -> M A)
  : M A :=
  c <- ctor ;; try_finally (body c) (client_close c).

(** [_handle_response] after a request: [raise_for_status()] decides. *)
Definition handle_response (ok : bool) : M unit :=
  if ok then ret tt else raise HTTPStatusError.

(** [upload_receipts(files)]: one [POST /bills] with every file. *)
Definition upload_receipts (c : ReceiptApiClient) (files : list nat) : M unit :=
  emit (EUploadCall files) ;;;
  w <- ask ;; handle_response (w_upload_ok w).

(** The [payload] built by [send_report_by_email]. *)
Definition report_payload (start_date end_date : datetime) (email : option string)
  : dict :=
  let payload := dict_set (dict_set [] "startDate" (isoformat start_date))
                          "endDate" (isoformat end_date) in
  match email with
  | Some e => if py_truthy email then dict_set payload "email" e else payload
  | None => payload
  end.

(** [send_report_by_email(start_date, end_date, email)]: one [POST /reports]. *)
Definition send_report_by_email (c : ReceiptApiClient)
  (start_date end_date : datetime) (email : option string) : M unit :=
  emit (EReportCall (report_payload start_date end_date email)) ;;;
  w <- ask ;; handle_response (w_report_ok w).

(** ** services/Schedulers.py: upload_bills_job *)

Definition API_BASE_URL : string := "https://receipt-analyser-api:8082".

(** [filename.lower().endswith(('.jpg', '.jpeg', '.png'))]. *)
Definition is_bill_file (filename : string) : bool :=
  py_endswith_any (py_lower filename) [".jpg"; ".jpeg"; ".png"].

(** The scan loop: each selected name is joined, recorded in [file_paths]
    and opened at once into [bill_files]. *)
Fixpoint scan_directory (dir : string) (names : list string)
  (file_paths : list string) (bill_files : list nat) : M (list string * list nat) :=
  match names with
  | [] => ret (file_paths, bill_files)
  | filename :: rest =>
    if is_bill_file filename then
      let file_path := os_path_join dir filename in
      h <- py_open file_path ;;
      scan_directory dir rest (file_paths ++ [file_path]) (bill_files ++ [h])
    else scan_directory dir rest file_paths bill_files
  end.

(** The removal loop, each [os.remove] in its own [try/except]. *)
Fixpoint remove_files (file_paths : list string) : M unit :=
  match file_paths with
  | [] => ret tt
  | file_path :: rest =>
    try_except (os_remove file_path ;;; log INFO (MsgRemoved file_path))
               (fun _ => log ERROR (MsgRemoveError file_path)) ;;;
    remove_files rest
  end.

(** The [finally] loop. *)
Fixpoint close_all (bill_files : list nat) : M unit :=
  match bill_files with
  | [] => ret tt
  | h :: rest => file_close h ;;; close_all rest
  end.

Definition upload_bills_job : M unit :=
  w <- ask ;;
  let dir := BILLS_DIRECTORY w in
  names <- os_listdir dir ;;
  scanned <- scan_directory dir names [] [] ;;
  let '(file_paths, bill_files) := scanned in
  match bill_files with
  | [] => log INFO (MsgNoBillFiles dir)
  | _ :: _ =>
    try_finally
      (try_except
         (log INFO (MsgAttempting (List.length bill_files)) ;;;
          async_with (ReceiptApiClient_init (Some API_BASE_URL) false)
            (fun service =>
               try_except
                 (upload_receipts service bill_files ;;;
                  log INFO (MsgUploaded (List.length bill_files)) ;;;
                  remove_files file_paths)
                 (fun e => log ERROR MsgUploadMethodError ;;; raise e)))
         (fun _ => log ERROR MsgUploadingError))
      (close_all bill_files)
  end.

(** ** The weekly report window *)

(** services/Schedulers.py: [last_day = today - timedelta(days=today.weekday() + 1)],
    [first_day = last_day - timedelta(days=6)]; [None] is an [OverflowError]. *)
Definition weekly_window (today : datetime) : option (datetime * datetime) :=
  match sub_days today (weekday today + 1) with
  | None => None
  | Some last_day =>
    match sub_days last_day 6 with
    | None => None
    | Some first_day => Some (first_day, last_day)
    end
  end.

(** services/ReceiptService.py: the same days, then
    [first_day.replace(hour=0, minute=1, second=0, microsecond=0)] and
    [last_day.replace(hour=23, minute=59, second=59, microsecond=0)]. *)
Definition weekly_window_ReceiptService (today : datetime) : option (datetime * datetime) :=
  match weekly_window today with
  | None => None
  | Some (first_day, last_day) =>
    Some (replace_time first_day 0 1 0 0, replace_time last_day 23 59 59 0)
  end.

Definition send_weekly_report_job : M unit :=
  w <- ask ;;
  match weekly_window (w_now w) with
  | None => raise OverflowError
  | Some (first_day, last_day) =>
    try_except
      (async_with (ReceiptApiClient_init (Some API_BASE_URL) false)
         (fun service =>
            send_report_by_email service first_day last_day None ;;;
            log INFO MsgReportSent))
      (fun _ => log ERROR MsgReportError)
  end.

(** ** main.py: the manual trigger endpoints; the returned dict is the
    200 response body. *)

Definition trigger_upload_bills : M dict :=
  log INFO MsgManualUpload ;;;
  upload_bills_job ;;;
  ret [("message", "Bill upload job completed")].

Definition trigger_weekly_report : M dict :=
  log INFO MsgManualReport ;;;
  send_weekly_report_job ;;;
  ret [("message", "Weekly report job completed")].

(** ** main.py over HTTP: FastAPI on Starlette, served by uvicorn

    FastAPI sends the dict an endpoint returns as JSON with status 200.
    Starlette's [ExceptionMiddleware] turns an [HTTPException] into its
    status with the JSON body [{"detail": detail}]. Any other exception
    reaches [ServerErrorMiddleware], which (the application is not in debug
    mode) answers status 500 with the plain text "Internal Server Error"
    and re-raises it; uvicorn then logs it with its traceback ("Exception
    in ASGI application"). *)

Inductive http_body := JsonBody (d : dict) | TextBody (t : string).

Record http_reply := mk_reply { reply_status : Z; reply_body : http_body }.

(** What one request yields: the reply, the exceptions the server logged,
    and the state the endpoint left behind. *)
Record served := mk_served { reply : http_reply; server_log : list exn; final_state : state }.

Definition serve (endpoint : M dict) (w : world) (s : state) : served :=
  match endpoint w s with
  | (Ok d, s') => mk_served (mk_reply 200 (JsonBody d)) [] s'
  | (Exc (HTTPException code detail), s') =>
      mk_served (mk_reply code (JsonBody [("detail", detail)])) [] s'
  | (Exc e, s') => mk_served (mk_reply 500 (TextBody "Internal Server Error")) [e] s'
  end.

(** ** services/Schedulers.py: the Redis job store

    The store is the Redis hash of job states keyed by job id (APScheduler's
    [RedisJobStore]). A stored state names the job's callable by reference;
    [add_job] on a running scheduler is APScheduler's [_real_add_job]:
    [store.add_job(job)], and on [ConflictingIdError] with
    [replace_existing=True], [store.update_job(job)]. *)

Module JobStore.

(** The callable a stored job state refers to: one of the two wrappers of
    Schedulers.py, or a reference that no longer resolves when the state is
    read back (a function of an earlier revision, say), so that
    [_reconstitute_job] raises. *)
Inductive job_func :=
| run_upload_bills_job
| run_weekly_report_job
| unrestorable (ref : string).

Record CronTrigger := mk_cron {
  day_of_week : string; cron_hour : string; cron_minute : string; tz : string }.

Record Job := mk_job { id : string; func : job_func; trigger : CronTrigger }.

Definition store := list Job.

Inductive store_exn := ConflictingIdError (job_id : string) | JobLookupError (job_id : string).

Definition ids (st : store) : list string := map id st.

(** [hexists(jobs_key, job_id)]. *)
Definition hexists (st : store) (job_id : string) : bool :=
  existsb (fun j => String.eqb (id j) job_id) st.

(** [hget(jobs_key, job_id)]. *)
Definition lookup (st : store) (job_id : string) : option Job :=
  find (fun j => String.eqb (id j) job_id) st.

(** [RedisJobStore.add_job]. *)
Definition redis_add_job (st : store) (job : Job) : store_exn + store :=
  if hexists st (id job) then inl (ConflictingIdError (id job)) else inr (st ++ [job])%list.

(** [hset(jobs_key, job.id, state)] over an existing entry. *)
Definition overwrite (job : Job) (j : Job) : Job :=
  if String.eqb (id j) (id job) then job else j.

(** [RedisJobStore.update_job]. *)
Definition redis_update_job (st : store) (job : Job) : store_exn + store :=
  if hexists st (id job)
  then inr (map (overwrite job) st)
  else inl (JobLookupError (id job)).

(** The store write of [_real_add_job(job, jobstore, replace_existing)]. *)
Definition add_job (st : store) (job : Job) (replace_existing : bool) : store_exn + store :=
  match redis_add_job st job with
  | inr st' => inr st'
  | inl (ConflictingIdError _) => if replace_existing then redis_update_job st job else
                                    inl (ConflictingIdError (id job))
  | inl e => inl e
  end.

Definition upload_job : Job :=
  mk_job "upload_bills_job" run_upload_bills_job (mk_cron "*" "*/2" "0" "utc").

Definition report_job : Job :=
  mk_job "send_weekly_report_job" run_weekly_report_job (mk_cron "sun" "13" "0" "utc").

End JobStore.

(** ** Observations on traces *)

Open Scope list_scope.

(** The [os.remove] attempts of a trace, with their outcomes. *)
Definition removals (tr : list event) : list (string * bool) :=
  flat_map (fun e => match e with ERemove p ok => [(p, ok)] | _ => [] end) tr.

(** The base URLs of the API client sessions created in a trace. *)
Definition session_urls (tr : list event) : list string :=
  flat_map (fun e => match e with ESession u => [u] | _ => [] end) tr.

(** The remote calls ([POST /bills], [POST /reports]) of a trace. *)
Definition remote_calls (tr : list event) : list event :=
  flat_map (fun e => match e with
                     | EUploadCall _ | EReportCall _ => [e] | _ => [] end) tr.

(** The spec's reading of the selection rule: the name ends, ignoring
    case, with one of the declared extensions. *)
Definition spec_has_image_extension (filename : string) : Prop :=
  exists ext, In ext [".jpg"; ".jpeg"; ".png"] /\
    (String.length ext <= String.length filename)%nat /\
    py_lower (substring (String.length filename - String.length ext)
                        (String.length ext) filename) = ext.

(** The events [remove_files] appends for the given paths. *)
Definition removal_events (w : world) (paths : list string) : list event :=
  flat_map (fun p => if w_can_remove w p
                     then [ERemove p true; ELog INFO (MsgRemoved p)]
                     else [ERemove p false; ELog ERROR (MsgRemoveError p)]) paths.

(** ** More of services/ReceiptApiClient.py *)

(** A Python dict with string keys and values of any type, in insertion
    order: [d[k] = v] and [d.get(k)]. *)
Fixpoint pydict_set {V} (d : list (string * V)) (k : string) (v : V) : list (string * V) :=
  match d with
  | [] => [(k, v)]
  | (k', v') :: d' => if String.eqb k k' then (k, v) :: d' else (k', v') :: pydict_set d' k v
  end.

Fixpoint pydict_get {V} (d : list (string * V)) (k : string) : option V :=
  match d with
  | [] => None
  | (k', v') :: d' => if String.eqb k k' then Some v' else pydict_get d' k
  end.

(** [str(i)] of a non-negative [int]. *)
Definition py_str_nat (n : nat) : string := NilEmpty.string_of_uint (Nat.to_uint n).

(** The key [f"file{i}"]. *)
Definition file_key (i : nat) : string := String.append "file" (py_str_nat i).

(** [{f"file{i}": file for i, file in enumerate(files)}] of
    [upload_receipts], built entry by entry from index [i]. *)
Fixpoint files_dict_from (i : nat) (files : list nat) (d : list (string * nat))
  : list (string * nat) :=
  match files with
  | [] => d
  | file :: rest => files_dict_from (S i) rest (pydict_set d (file_key i) file)
  end.

Definition files_dict (files : list nat) : list (string * nat) := files_dict_from 0 files [].

(** ** services/Schedulers.py and main.py: the scheduler lifecycle

    The [BackgroundScheduler] with its Redis job store, as the module-level
    [scheduler] of Schedulers.py, after APScheduler 3: [add_job] on a
    stopped scheduler only queues the job in [_pending_jobs], and [start()]
    writes the queued jobs to the store; [get_jobs()] of a stopped scheduler
    lists the queued jobs, and of a running one reads the whole Redis hash,
    deleting the states it cannot restore. [redis_ok] says whether the Redis
    server answers; every command sent to it raises [ConnectionError] when
    it does not. What the scheduler's own thread does with due jobs is not
    modelled. *)

Module Sched.

Inductive smessage :=
| SchedulerStarted | RedisConnected | InitFailed
| UploadScheduled | ReportScheduled | ScheduleError | ShutdownComplete
| AppStarting | StartWithoutJobs | NoJobsFound | FoundJobs (n : nat)
| JobListed (job_id : string) | CheckError | ShuttingDown | AppShuttingDown
| AddingTentatively (job_id : string) | UnableToRestore (job_id : string).

Inductive sevent := SStart | SShutdown | SLog (lv : level) (msg : smessage).

(** The scheduler: whether it runs (a state other than [STATE_STOPPED]),
    the Redis hash of job states, the queued [_pending_jobs] with their
    [replace_existing], and what it did. *)
Record sched := mk_sched {
  running : bool;
  jobs : JobStore.store;
  pending : list (JobStore.Job * bool);
  events : list sevent }.

Inductive sexn :=
| RedisConnectionError
| StoreExn (e : JobStore.store_exn)
| AttributeError
| SchedulerAlreadyRunningError
| SchedulerNotRunningError.

Inductive sresult (A : Type) := SOk (a : A) | SExc (e : sexn).
Arguments SOk {A} a.
Arguments SExc {A} e.

(** Code on the scheduler that may raise. *)
Definition SM (A : Type) : Type := sched -> sresult A * sched.

Definition sret {A} (a : A) : SM A := fun s => (SOk a, s).
Definition sraise {A} (e : sexn) : SM A := fun s => (SExc e, s).
Definition sbind {A B} (m : SM A) (k : A -> SM B) : SM B :=
  fun s => match m s with
           | (SOk a, s1) => k a s1
           | (SExc e, s1) => (SExc e, s1)
           end.
Definition sseq {A} (m : SM unit) (k : SM A) : SM A := sbind m (fun _ => k).

(** [try: m except Exception as e: h(e)]. *)
Definition stry {A} (m : SM A) (h : sexn -> SM A) : SM A :=
  fun s => match m s with
           | (SExc e, s1) => h e s1
           | r => r
           end.

Definition slog (lv : level) (msg : smessage) : SM unit :=
  fun s => (SOk tt, mk_sched (running s) (jobs s) (pending s) (events s ++ [SLog lv msg])%list).

(** [scheduler.running]. *)
Definition is_running : SM bool := fun s => (SOk (running s), s).

(** [_real_add_job(job, jobstore, replace_existing)]: the store write. *)
Definition real_add_job (redis_ok : bool) (job : JobStore.Job) (replace_existing : bool)
  : SM unit :=
  fun s =>
    if redis_ok then
      match JobStore.add_job (jobs s) job replace_existing with
      | inr st => (SOk tt, mk_sched (running s) st (pending s) (events s))
      | inl e => (SExc (StoreExn e), s)
      end
    else (SExc RedisConnectionError, s).

(** [scheduler.add_job(func, trigger, id=..., replace_existing=...)]: on a
    stopped scheduler the job is queued and logged as added tentatively,
    otherwise written to the store. The result says whether the returned
    job has a [next_run_time] attribute, which only [_real_add_job] sets. *)
Definition add_job (redis_ok : bool) (job : JobStore.Job) (replace_existing : bool) : SM bool :=
  fun s =>
    if running s then sseq (real_add_job redis_ok job replace_existing) (sret true) s
    else (SOk false,
          mk_sched false (jobs s) (pending s ++ [(job, replace_existing)])%list
                   (events s ++ [SLog INFO (AddingTentatively (JobStore.id job))])%list).

(** The loop of [start()] over [_pending_jobs]. *)
Fixpoint add_pending (redis_ok : bool) (ps : list (JobStore.Job * bool)) : SM unit :=
  match ps with
  | [] => sret tt
  | (job, rep) :: ps' => sseq (real_add_job redis_ok job rep) (add_pending redis_ok ps')
  end.

(** [scheduler.start()]: [SchedulerAlreadyRunningError] unless stopped;
    the queued jobs go to the store, and only then is the queue emptied and
    the state set to running. *)
Definition start (redis_ok : bool) : SM unit :=
  fun s =>
    if running s then (SExc SchedulerAlreadyRunningError, s)
    else match add_pending redis_ok (pending s) s with
         | (SOk _, s1) => (SOk tt, mk_sched true (jobs s1) [] (events s1 ++ [SStart])%list)
         | (SExc e, s1) => (SExc e, s1)
         end.

(** [scheduler.shutdown()]. *)
Definition shutdown : SM unit :=
  fun s =>
    if running s
    then (SOk tt, mk_sched false (jobs s) (pending s) (events s ++ [SShutdown])%list)
    else (SExc SchedulerNotRunningError, s).

(** Whether [_reconstitute_job] restores a stored state. *)
Definition restorable (j : JobStore.Job) : bool :=
  match JobStore.func j with
  | JobStore.unrestorable _ => false
  | _ => true
  end.

(** [scheduler.get_jobs()]: the queued jobs of a stopped scheduler;
    otherwise [RedisJobStore.get_all_jobs()]: [hgetall], then
    [_reconstitute_jobs], which logs ([logger.exception]) every state it
    cannot restore and deletes them all with [hdel]. APScheduler sorts the
    result by next run time; it is in store order here, and nothing below
    depends on that order. *)
Definition get_jobs (redis_ok : bool) : SM JobStore.store :=
  fun s =>
    if negb (running s) then (SOk (map fst (pending s)), s)
    else if redis_ok then
      let failed := filter (fun j => negb (restorable j)) (jobs s) in
      let kept := filter restorable (jobs s) in
      (SOk kept,
       mk_sched (running s) kept (pending s)
         (events s ++ map (fun j => SLog ERROR (UnableToRestore (JobStore.id j))) failed)%list)
    else (SExc RedisConnectionError, s).

(** [logger.info(f"... {job.next_run_time} UTC")]. *)
Definition log_next_run (has_next_run_time : bool) (msg : smessage) : SM unit :=
  if has_next_run_time then slog INFO msg else sraise AttributeError.

Definition initialize_scheduler (redis_ok : bool) : SM bool :=
  stry
    (sbind is_running (fun r =>
     sseq (if r then sret tt else sseq (start redis_ok) (slog INFO SchedulerStarted))
     (sbind (get_jobs redis_ok) (fun _ =>
      sseq (slog INFO RedisConnected) (sret true)))))
    (fun _ => sseq (slog ERROR InitFailed) (sret false)).

Definition schedule_jobs (redis_ok : bool) : SM unit :=
  stry
    (sbind (add_job redis_ok JobStore.upload_job true) (fun upload_next =>
     sseq (log_next_run upload_next UploadScheduled)
     (sbind (add_job redis_ok JobStore.report_job true) (fun report_next =>
      log_next_run report_next ReportScheduled))))
    (fun e => sseq (slog ERROR ScheduleError) (sraise e)).

Definition shutdown_scheduler : SM unit :=
  sbind is_running (fun r =>
    if r then sseq shutdown (slog INFO ShutdownComplete) else sret tt).

(** The [for job in jobs] loop of [lifespan]. *)
Fixpoint log_jobs (js : JobStore.store) : SM unit :=
  match js with
  | [] => sret tt
  | j :: js' => sseq (slog INFO (JobListed (JobStore.id j))) (log_jobs js')
  end.

(** The [try] block of [lifespan] after a successful
    [initialize_scheduler]. *)
Definition check_jobs (redis_ok : bool) : SM unit :=
  stry (sbind (get_jobs redis_ok) (fun js =>
          match js with
          | [] => sseq (slog INFO NoJobsFound) (schedule_jobs redis_ok)
          | _ => sseq (slog INFO (FoundJobs (List.length js))) (log_jobs js)
          end))
       (fun _ => slog ERROR CheckError).

(** main.py [lifespan] up to its [yield]: the result tells whether the
    generator goes on to the shutdown code after the application stops
    ([False] on the early [yield; return] path). *)
Definition lifespan_startup (redis_ok : bool) : SM bool :=
  sseq (slog INFO AppStarting)
  (sbind (initialize_scheduler redis_ok) (fun ok =>
   if ok then sseq (check_jobs redis_ok) (sret true)
   else sseq (slog ERROR StartWithoutJobs) (sret false))).

(** main.py [lifespan] after its [yield]. *)
Definition lifespan_shutdown : SM unit :=
  sseq (slog INFO ShuttingDown) (sseq shutdown_scheduler (slog INFO AppShuttingDown)).

(** One application run: startup, serving, then the code after [yield]
    when the generator reaches it. *)
Definition lifespan (redis_ok : bool) : SM unit :=
  sbind (lifespan_startup redis_ok) (fun go_on => if go_on then lifespan_shutdown else sret tt).


Definition starts (s : sched) : nat :=
  List.length (filter (fun e => match e with SStart => true | _ => false end) (events s)).

Definition shutdowns (s : sched) : nat :=
  List.length (filter (fun e => match e with SShutdown => true | _ => false end) (events s)).

(** The lifecycle of a scheduler: whether it runs, how often it was
    started and shut down. *)
Definition life (s : sched) : bool * nat * nat := (running s, starts s, shutdowns s).

(** A property of the scheduler kept by [m], whatever it returns. *)
Definition keeps (P : sched -> Prop) {A} (m : SM A) : Prop :=
  forall s, P s -> P (snd (m s)).

End Sched.

(** A state predicate kept by every step of a computation, whatever it
    returns. *)
Definition preserves (P : state -> Prop) {A} (m : M A) : Prop :=
  forall w s, P s -> P (snd (m w s)).

(** ** Concrete runs *)

Definition st_empty : state := mk_state [] [].

(** Sunday 15 June 2025, 13:00:00, the time the weekly cron fires. *)
Definition sunday_1pm : datetime := datetime_of 2025 6 15 13 0 0 0.

(** Half a second later, in the same second. *)
Definition sunday_1pm_half : datetime := datetime_of 2025 6 15 13 0 0 500000.

(** Four directory entries, two of them images; removing the PNG fails. *)
Definition w_demo : world :=
  mk_world None None (Some ["a.JPG"; "notes.txt"; "b.png"; "c.gif"])
    (fun _ => true) (fun p => negb (String.eqb p "./bills/b.png"))
    true true sunday_1pm.

(** One image, and the remote answers [POST /bills] with an error. *)
Definition w_upload_fails : world :=
  mk_world None None (Some ["a.jpg"]) (fun _ => true) (fun _ => true)
    false true sunday_1pm.

(** The bills directory does not exist. *)
Definition w_no_dir : world :=
  mk_world None None None (fun _ => true) (fun _ => true) true true sunday_1pm.

(** Two images; the second one cannot be opened. *)
Definition w_partial_open : world :=
  mk_world None None (Some ["a.jpg"; "b.jpg"])
    (fun p => String.eqb p "./bills/a.jpg") (fun _ => true) true true sunday_1pm.

(** [RECEIPT_API_URL] is set. *)
Definition w_env_url : world :=
  mk_world None (Some "https://receipts.internal:9443") (Some ["a.jpg"])
    (fun _ => true) (fun _ => true) true true sunday_1pm.

(** A directory without images. *)
Definition w_no_images : world :=
  mk_world None None (Some ["notes.txt"; "c.gif"]) (fun _ => true) (fun _ => true)
    true true sunday_1pm.

(** A store left by an earlier revision that ran the upload daily at 22:00. *)
Definition store_old : JobStore.store :=
  [JobStore.mk_job "upload_bills_job" JobStore.run_upload_bills_job
     (JobStore.mk_cron "*" "22" "0" "utc")].

(** The same world as [w_demo], half a second later. *)
Definition w_demo_half : world :=
  mk_world None None (Some ["a.JPG"; "notes.txt"; "b.png"; "c.gif"])
    (fun _ => true) (fun p => negb (String.eqb p "./bills/b.png"))
    true true sunday_1pm_half.

(** The remote answers [POST /reports] with an error. *)
Definition w_report_fails : world :=
  mk_world None None (Some ["a.jpg"]) (fun _ => true) (fun _ => true)
    true false sunday_1pm.

(** A call on 0001-01-03, a Wednesday of the first calendar week. *)
Definition w_first_week : world :=
  mk_world None None (Some []) (fun _ => true) (fun _ => true)
    true true (datetime_of 1 1 3 12 0 0 0).

(** A stopped scheduler over an empty Redis store. *)
Definition sched_empty : Sched.sched := Sched.mk_sched false [] [] [].

(** A stopped scheduler over the store left by the earlier revision. *)
Definition sched_old : Sched.sched := Sched.mk_sched false store_old [] [].


(** A store whose only state refers to a function that an earlier revision
    had and this one lacks. *)
Definition store_stale : JobStore.store :=
  [JobStore.mk_job "upload_bills_job" (JobStore.unrestorable "services.Schedulers:upload_job")
     (JobStore.mk_cron "*" "22" "0" "utc")].

(** A stopped scheduler over that store, as at application start. *)
Definition sched_stale : Sched.sched := Sched.mk_sched false store_stale [] [].

(** ** General lemmas *)

Lemma removals_app (a b : list event) : removals (a ++ b) = removals a ++ removals b.
Proof. unfold removals. apply flat_map_app. Qed.

Lemma session_urls_app (a b : list event) :
  session_urls (a ++ b) = session_urls a ++ session_urls b.
Proof. unfold session_urls. apply flat_map_app. Qed.

Lemma remote_calls_app (a b : list event) :
  remote_calls (a ++ b) = remote_calls a ++ remote_calls b.
Proof. unfold remote_calls. apply flat_map_app. Qed.

Lemma py_lower_length (s : string) : String.length (py_lower s) = String.length s.
Proof. induction s as [|c s IH]; simpl; congruence. Qed.

Lemma py_lower_substring (n m : nat) (s : string) :
  substring n m (py_lower s) = py_lower (substring n m s).
Proof.
  revert n m. induction s as [|c s IH]; intros n m.
  - destruct n, m; reflexivity.
  - destruct n as [|n]; [destruct m as [|m]|]; simpl; rewrite ?IH; reflexivity.
Qed.

Lemma close_all_spec (bf : list nat) (w : world) (s : state) :
  close_all bf w s =
  (Ok tt, mk_state (fold_left (fun hs h => set_nth hs h false) bf (handles s))
                   (trace s ++ map EClose bf)).
Proof.
  revert s. induction bf as [|h bf IH]; intros s; simpl.
  - rewrite app_nil_r. destruct s; reflexivity.
  - unfold bind, file_close. rewrite IH. simpl. rewrite <- app_assoc. reflexivity.
Qed.

Lemma remove_files_spec (ps : list string) (w : world) (s : state) :
  remove_files ps w s =
  (Ok tt, mk_state (handles s) (trace s ++ removal_events w ps)).
Proof.
  revert s. induction ps as [|p ps IH]; intros s; simpl.
  - rewrite app_nil_r. destruct s; reflexivity.
  - unfold bind, try_except, os_remove, log, emit.
    destruct (w_can_remove w p); simpl; rewrite IH; simpl;
      rewrite <- !app_assoc; reflexivity.
Qed.

(** The scan never removes a file. *)
Lemma scan_directory_removals dir names fp bf w s :
  removals (trace (snd (scan_directory dir names fp bf w s))) = removals (trace s).
Proof.
  revert fp bf s. induction names as [|n names IH]; intros fp bf s; simpl.
  - reflexivity.
  - destruct (is_bill_file n); [|apply IH].
    unfold bind, py_open. destruct (w_can_open w (os_path_join dir n)); [|reflexivity].
    rewrite IH. simpl. rewrite removals_app. simpl. apply app_nil_r.
Qed.

(** When every selected name can be opened, the scan records exactly the
    selected paths, one handle each. *)
Lemma scan_directory_ok dir names fp bf w s :
  (forall n, In n names -> is_bill_file n = true ->
             w_can_open w (os_path_join dir n) = true) ->
  exists hs s',
    scan_directory dir names fp bf w s =
      (Ok (fp ++ map (os_path_join dir) (filter is_bill_file names), bf ++ hs)%list, s') /\
    List.length hs = List.length (filter is_bill_file names) /\
    removals (trace s') = removals (trace s) /\
    remote_calls (trace s') = remote_calls (trace s) /\
    session_urls (trace s') = session_urls (trace s).
Proof.
  revert fp bf s. induction names as [|n names IH]; intros fp bf s Hopen; simpl.
  - exists [], s. rewrite !app_nil_r. auto.
  - destruct (is_bill_file n) eqn:Hb.
    + unfold bind, py_open. rewrite (Hopen n (or_introl eq_refl) Hb).
      destruct (IH (fp ++ [os_path_join dir n])%list (bf ++ [List.length (handles s)])%list
                  (mk_state (handles s ++ [true]) (trace s ++ [EOpen (os_path_join dir n) (List.length (handles s))])))
        as (hs & s' & Hrun & Hlen & Hr & Hc & Hu).
      { intros m Hm. apply Hopen. now right. }
      exists (List.length (handles s) :: hs), s'. rewrite Hrun.
      rewrite <- !app_assoc. simpl. repeat split.
      * simpl. now rewrite Hlen.
      * rewrite Hr. simpl. rewrite removals_app. apply app_nil_r.
      * rewrite Hc. simpl. rewrite remote_calls_app. apply app_nil_r.
      * rewrite Hu. simpl. rewrite session_urls_app. apply app_nil_r.
    + apply IH. intros m Hm. apply Hopen. now right.
Qed.

(** A scan over names none of which is selected does nothing. *)
Lemma scan_directory_none dir names fp bf w s :
  filter is_bill_file names = [] ->
  scan_directory dir names fp bf w s = (Ok (fp, bf), s).
Proof.
  revert fp bf. induction names as [|n names IH]; intros fp bf Hf; simpl in *.
  - reflexivity.
  - destruct (is_bill_file n); [discriminate|]. now apply IH.
Qed.

Lemma removals_EClose (bf : list nat) : removals (map EClose bf) = [].
Proof. induction bf; simpl; auto. Qed.

Lemma session_urls_EClose (bf : list nat) : session_urls (map EClose bf) = [].
Proof. induction bf; simpl; auto. Qed.

Lemma remote_calls_EClose (bf : list nat) : remote_calls (map EClose bf) = [].
Proof. induction bf; simpl; auto. Qed.

Lemma removal_events_error (w : world) (paths : list string) (p : string) :
  In p paths -> w_can_remove w p = false ->
  In (ELog ERROR (MsgRemoveError p)) (removal_events w paths).
Proof.
  intros Hp Hrm. unfold removal_events. apply in_flat_map.
  exists p. split; [exact Hp|]. rewrite Hrm. simpl. auto.
Qed.

Ltac unfold_job :=
  unfold async_with in *;
  unfold try_finally, try_except, async_with, ReceiptApiClient_init,
    upload_receipts, handle_response, client_close, log, emit, bind, ask,
    ret, raise in *.

(** ** Helpers *)

Lemma remote_calls_removal_events (w : world) (paths : list string) :
  remote_calls (removal_events w paths) = [].
Proof.
  induction paths as [|p ps IH]; [reflexivity|]. unfold removal_events in *.
  simpl. rewrite remote_calls_app, IH. destruct (w_can_remove w p); reflexivity.
Qed.

Lemma session_urls_removal_events (w : world) (paths : list string) :
  session_urls (removal_events w paths) = [].
Proof.
  induction paths as [|p ps IH]; [reflexivity|]. unfold removal_events in *.
  simpl. rewrite session_urls_app, IH. destruct (w_can_remove w p); reflexivity.
Qed.

Lemma set_nth_middle {A} (l r : list A) (x y : A) :
  set_nth (l ++ x :: r) (List.length l) y = l ++ y :: r.
Proof. induction l as [|a l IH]; simpl; congruence. Qed.

(** Closing the handles [n, n+1, ...] of freshly opened files. *)
Lemma close_fresh_handles (l : list bool) (k : nat) (x : bool) :
  fold_left (fun hs h => set_nth hs h false) (seq (List.length l) k) (l ++ repeat x k) =
  l ++ repeat false k.
Proof.
  revert l. induction k as [|k IH]; intros l; [reflexivity|].
  simpl. rewrite set_nth_middle.
  replace (l ++ false :: repeat x k) with ((l ++ [false]) ++ repeat x k)
    by (rewrite <- app_assoc; reflexivity).
  replace (S (List.length l)) with (List.length (l ++ [false]))
    by (rewrite length_app; simpl; lia).
  rewrite IH. rewrite <- app_assoc. reflexivity.
Qed.

(** When every selected name opens, the scan opens them in order, each on
    the next fresh handle, and makes no remote call and no session. *)
Lemma scan_directory_opens dir names fp bf w s :
  (forall n, In n names -> is_bill_file n = true ->
             w_can_open w (os_path_join dir n) = true) ->
  exists tr,
    scan_directory dir names fp bf w s =
      (Ok (fp ++ map (os_path_join dir) (filter is_bill_file names),
           bf ++ seq (List.length (handles s)) (List.length (filter is_bill_file names))),
       mk_state (handles s ++ repeat true (List.length (filter is_bill_file names)))
                (trace s ++ tr)) /\
    remote_calls tr = [] /\ session_urls tr = [].
Proof.
  revert fp bf s. induction names as [|n names IH]; intros fp bf s Hopen; simpl.
  - exists []. rewrite !app_nil_r. destruct s; auto.
  - destruct (is_bill_file n) eqn:Hb.
    + unfold bind, py_open. rewrite (Hopen n (or_introl eq_refl) Hb).
      destruct (IH (fp ++ [os_path_join dir n]) (bf ++ [List.length (handles s)])
                  (mk_state (handles s ++ [true])
                            (trace s ++ [EOpen (os_path_join dir n) (List.length (handles s))])))
        as (tr & Hrun & Hr & Hu).
      { intros m Hm. apply Hopen. now right. }
      exists (EOpen (os_path_join dir n) (List.length (handles s)) :: tr).
      rewrite Hrun. simpl. rewrite length_app, Nat.add_comm. simpl.
      rewrite <- !app_assoc. simpl. auto.
    + apply IH. intros m Hm. apply Hopen. now right.
Qed.

(** With the listing present and every selected file openable, the upload
    job returns normally. *)
Lemma upload_bills_job_returns (w : world) (s : state) (names : list string) :
  w_listing w = Some names ->
  (forall n, In n names -> is_bill_file n = true ->
             w_can_open w (os_path_join (BILLS_DIRECTORY w) n) = true) ->
  fst (upload_bills_job w s) = Ok tt.
Proof.
  intros Hl Hopen.
  destruct (scan_directory_ok (BILLS_DIRECTORY w) names [] [] w s Hopen)
    as (hs & s1 & Hscan & _ & _ & _ & _).
  destruct (upload_bills_job w s) as [r s'] eqn:Hrun. simpl.
  unfold upload_bills_job, os_listdir in Hrun. unfold_job.
  rewrite Hl, Hscan in Hrun. simpl in Hrun.
  destruct hs as [|h hs].
  - now inversion Hrun.
  - destruct (w_upload_ok w); simpl in Hrun.
    + rewrite remove_files_spec in Hrun. simpl in Hrun.
      change (file_close h ;;; close_all hs) with (close_all (h :: hs)) in Hrun.
      rewrite close_all_spec in Hrun. now inversion Hrun.
    + change (file_close h ;;; close_all hs) with (close_all (h :: hs)) in Hrun.
      rewrite close_all_spec in Hrun. now inversion Hrun.
Qed.

(** The window exists on every valid day past the first calendar week. *)
Lemma weekly_window_defined (today : datetime) :
  valid today -> (7 < ordinal today - weekday today)%Z ->
  exists first_day last_day, weekly_window today = Some (first_day, last_day).
Proof.
  intros (Ho & _) H7. unfold weekly_window, sub_days. unfold weekday in *.
  pose proof (Z.mod_pos_bound (ordinal today + 6) 7 ltac:(lia)) as Hb.
  set (r := ((ordinal today + 6) mod 7)%Z) in *. unfold MAXORDINAL in *.
  destruct ((0 <? ordinal today - (r + 1))%Z && (ordinal today - (r + 1) <=? 3652059)%Z)
    eqn:E1.
  2:{ exfalso. apply andb_false_iff in E1.
      destruct E1 as [E|E]; [apply Z.ltb_ge in E|apply Z.leb_gt in E]; lia. }
  simpl. destruct ((0 <? ordinal today - (r + 1) - 6)%Z &&
                   (ordinal today - (r + 1) - 6 <=? 3652059)%Z) eqn:E2.
  2:{ exfalso. apply andb_false_iff in E2.
      destruct E2 as [E|E]; [apply Z.ltb_ge in E|apply Z.leb_gt in E]; lia. }
  eauto.
Qed.

Lemma weekday_bounds (dt : datetime) : (0 <= weekday dt < 7)%Z.
Proof. unfold weekday. apply Z.mod_pos_bound. lia. Qed.

(** A run of the report job once its window exists. *)
Lemma send_weekly_report_job_some (w : world) (s : state) (first_day last_day : datetime) :
  weekly_window (w_now w) = Some (first_day, last_day) ->
  send_weekly_report_job w s =
    (Ok tt, mk_state (handles s)
              (trace s ++ [ESession API_BASE_URL;
                           EReportCall (report_payload first_day last_day None)] ++
               (if w_report_ok w then [ELog INFO MsgReportSent; ESessionClose]
                else [ESessionClose; ELog ERROR MsgReportError]))).
Proof.
  intros Hw. unfold send_weekly_report_job, send_report_by_email. unfold_job.
  rewrite Hw. simpl. destruct (w_report_ok w); simpl; rewrite <- !app_assoc; reflexivity.
Qed.

(** ** C1: removal is gated on the upload's success *)

(** C1. Files are removed only after the upload call succeeds: when the
    remote answers with an error, the run attempts no [os.remove] at all;
    when it succeeds and the selected files open, the run attempts
    [os.remove] on each of them, in order, whatever the outcome of the
    others, logs each failed removal, and returns normally. *)
Theorem upload_removes_only_after_success (w : world) (s s' : state) (r : result unit) :
  upload_bills_job w s = (r, s') ->
  (w_upload_ok w = false -> removals (trace s') = removals (trace s)) /\
  (w_upload_ok w = true ->
   forall names, w_listing w = Some names ->
   (forall n, In n names -> is_bill_file n = true ->
              w_can_open w (os_path_join (BILLS_DIRECTORY w) n) = true) ->
   let paths := map (os_path_join (BILLS_DIRECTORY w)) (filter is_bill_file names) in
   r = Ok tt /\
   removals (trace s') = removals (trace s) ++ map (fun p => (p, w_can_remove w p)) paths /\
   (forall p, In p paths -> w_can_remove w p = false ->
              In (ELog ERROR (MsgRemoveError p)) (trace s'))).
Proof.
  intros Hrun. split.
  - (* the upload call fails *)
    intros Hup. unfold upload_bills_job, os_listdir in Hrun. unfold_job.
    destruct (w_listing w) as [names|]; [|now inversion Hrun].
    pose proof (scan_directory_removals (BILLS_DIRECTORY w) names [] [] w s) as Hscan.
    destruct (scan_directory (BILLS_DIRECTORY w) names [] [] w s) as [[[fp bf]|e] s1].
    2:{ inversion Hrun; subst. exact Hscan. }
    simpl in Hscan. destruct bf as [|h bf].
    + inversion Hrun; subst. simpl. rewrite removals_app. simpl.
      now rewrite app_nil_r.
    + rewrite Hup in Hrun. simpl in Hrun.
      change (file_close h ;;; close_all bf) with (close_all (h :: bf)) in Hrun.
      rewrite close_all_spec in Hrun. inversion Hrun; subst. simpl. rewrite !removals_app. rewrite Hscan. simpl.
      rewrite removals_EClose. now rewrite !app_nil_r.
  - (* the upload call succeeds *)
    intros Hup names Hl Hopen paths.
    destruct (scan_directory_ok (BILLS_DIRECTORY w) names [] [] w s Hopen)
      as (hs & s1 & Hscan & Hlen & Hr & _ & _).
    unfold upload_bills_job, os_listdir in Hrun. unfold_job.
    rewrite Hl, Hscan in Hrun. simpl in Hrun. fold paths in Hrun.
    destruct hs as [|h hs].
    + assert (Hnil : paths = []).
      { unfold paths. destruct (filter is_bill_file names); [reflexivity|discriminate]. }
      inversion Hrun; subst. rewrite Hnil. simpl. rewrite removals_app, Hr. simpl.
      rewrite !app_nil_r. repeat split; auto. intros p [].
    + rewrite Hup in Hrun. simpl in Hrun.
      rewrite remove_files_spec in Hrun. simpl in Hrun.
      change (file_close h ;;; close_all hs) with (close_all (h :: hs)) in Hrun.
      rewrite close_all_spec in Hrun.
      inversion Hrun; subst. simpl.
      rewrite !removals_app, Hr. simpl. rewrite removals_EClose.
      split; [reflexivity|]. split.
      * rewrite !app_nil_r. f_equal. clear.
        unfold removal_events.
        induction paths as [|p ps IH]; simpl; [reflexivity|].
        rewrite removals_app, IH.
        destruct (w_can_remove w p); reflexivity.
      * intros p Hp Hrm.
        pose proof (removal_events_error w paths p Hp Hrm) as Hin.
        rewrite !in_app_iff. tauto.
Qed.

(** ** C2: an upload failure does not leave the job *)

(** C2 (counterexample). With one image and a failing [POST /bills], the
    upload call is made and fails, yet the job returns normally: no
    exception reaches its caller. *)
Lemma upload_failure_not_propagated :
  remote_calls (trace (snd (upload_bills_job w_upload_fails st_empty))) = [EUploadCall [0]] /\
  ~ (exists e, fst (upload_bills_job w_upload_fails st_empty) = Exc e).
Proof.
  split.
  - vm_compute. reflexivity.
  - intros [e H]. vm_compute in H. discriminate.
Qed.

(** C2 (amended). When the selected files open and the upload call fails,
    the failure is logged twice (in the handler around [upload_receipts]
    and as "Error uploading bills"), every file the job opened is closed
    again by the [finally] block, and the exception is swallowed: the job
    returns normally. *)
Theorem upload_failure_logged_and_swallowed (w : world) (s s' : state) (r : result unit)
  (names : list string) :
  upload_bills_job w s = (r, s') ->
  w_listing w = Some names ->
  (forall n, In n names -> is_bill_file n = true ->
             w_can_open w (os_path_join (BILLS_DIRECTORY w) n) = true) ->
  filter is_bill_file names <> [] ->
  w_upload_ok w = false ->
  r = Ok tt /\
  handles s' = handles s ++ repeat false (List.length (filter is_bill_file names)) /\
  In (ELog ERROR MsgUploadMethodError) (trace s') /\
  In (ELog ERROR MsgUploadingError) (trace s').
Proof.
  intros Hrun Hl Hopen Hsel Hup.
  destruct (scan_directory_opens (BILLS_DIRECTORY w) names [] [] w s Hopen)
    as (tr & Hscan & _ & _).
  unfold upload_bills_job, os_listdir in Hrun. unfold_job.
  rewrite Hl, Hscan in Hrun. simpl in Hrun.
  destruct (List.length (filter is_bill_file names)) as [|k'] eqn:Hk; simpl in Hrun.
  - apply length_zero_iff_nil in Hk. contradiction.
  - set (n := List.length (handles s)) in *. rewrite Hup in Hrun. simpl in Hrun.
    change (file_close n ;;; close_all (seq (S n) k'))
      with (close_all (seq n (S k'))) in Hrun.
    rewrite close_all_spec in Hrun. inversion Hrun; subst. cbn [handles trace].
    split; [reflexivity|].
    split; [exact (close_fresh_handles (handles s) (S k') true)|].
    rewrite !in_app_iff. simpl. tauto.
Qed.

(** ** C3: the manual trigger endpoints *)

Lemma scan_directory_raises dir names fp bf w s e s' :
  scan_directory dir names fp bf w s = (Exc e, s') -> exists p, e = OSError p.
Proof.
  revert fp bf s. induction names as [|n names IH]; intros fp bf s H; simpl in H.
  - discriminate.
  - destruct (is_bill_file n); [|exact (IH _ _ _ H)].
    unfold bind, py_open in H. destruct (w_can_open w (os_path_join dir n)).
    + exact (IH _ _ _ H).
    + inversion H. eauto.
Qed.

(** The upload job raises only [FileNotFoundError] of the bills directory
    or the [OSError] of an [open]: what follows the scan is guarded by an
    [except Exception] whose handler only logs, and by a [finally] that
    only closes files. *)
Lemma upload_bills_job_raises (w : world) (s s' : state) (e : exn) :
  upload_bills_job w s = (Exc e, s') ->
  e = FileNotFoundError (BILLS_DIRECTORY w) \/ exists p, e = OSError p.
Proof.
  intros H. unfold upload_bills_job, os_listdir in H. unfold_job.
  destruct (w_listing w) as [names|]; [|inversion H; now left].
  destruct (scan_directory (BILLS_DIRECTORY w) names [] [] w s) as [[[fp bf]|e'] s1] eqn:Hs.
  - destruct bf as [|h bf]; simpl in H; [discriminate|].
    destruct (w_upload_ok w); simpl in H;
      [rewrite remove_files_spec in H; simpl in H|];
      change (file_close h ;;; close_all bf) with (close_all (h :: bf)) in H;
      rewrite close_all_spec in H; simpl in H; discriminate.
  - inversion H; subst. right. exact (scan_directory_raises _ _ _ _ _ _ _ _ Hs).
Qed.

(** The report job raises only [OverflowError], from its date arithmetic. *)
Lemma send_weekly_report_job_raises (w : world) (s s' : state) (e : exn) :
  send_weekly_report_job w s = (Exc e, s') -> e = OverflowError.
Proof.
  intros H. unfold send_weekly_report_job in H. unfold ask, bind in H.
  destruct (weekly_window (w_now w)) as [[first_day last_day]|].
  - unfold send_report_by_email in H. unfold_job. simpl in H.
    destruct (w_report_ok w); discriminate.
  - unfold raise in H. congruence.
Qed.

(** C3. Over HTTP, each manual-trigger endpoint logs the trigger, runs its
    job and, when the job returns, answers 200 with its message as JSON.
    When the job raises, the endpoint has no handler of its own; as the job
    never raises [HTTPException] (the upload job raises only
    [FileNotFoundError] or [OSError], the report job only [OverflowError]),
    the exception reaches Starlette's [ServerErrorMiddleware]: the client
    gets status 500 with the generic text "Internal Server Error", and the
    exception is logged server-side. *)
Theorem trigger_endpoints_http (w : world) (s : state) :
  let s1 := mk_state (handles s) (trace s ++ [ELog INFO MsgManualUpload]) in
  let s2 := mk_state (handles s) (trace s ++ [ELog INFO MsgManualReport]) in
  serve trigger_upload_bills w s =
    (let '(r, s') := upload_bills_job w s1 in
     match r with
     | Ok _ => mk_served (mk_reply 200 (JsonBody [("message", "Bill upload job completed")])) [] s'
     | Exc e => mk_served (mk_reply 500 (TextBody "Internal Server Error")) [e] s'
     end) /\
  serve trigger_weekly_report w s =
    (let '(r, s') := send_weekly_report_job w s2 in
     match r with
     | Ok _ => mk_served (mk_reply 200 (JsonBody [("message", "Weekly report job completed")])) [] s'
     | Exc e => mk_served (mk_reply 500 (TextBody "Internal Server Error")) [e] s'
     end) /\
  (forall e s', upload_bills_job w s1 = (Exc e, s') ->
     e = FileNotFoundError (BILLS_DIRECTORY w) \/ exists p, e = OSError p) /\
  (forall e s', send_weekly_report_job w s2 = (Exc e, s') -> e = OverflowError).
Proof.
  intros s1 s2.
  assert (Hu := upload_bills_job_raises w s1).
  assert (Hr := send_weekly_report_job_raises w s2).
  split; [|split; [|split; [intros e s'; exact (Hu s' e)|intros e s'; exact (Hr s' e)]]].
  - unfold serve, trigger_upload_bills, log, emit, bind, ret. fold s1.
    destruct (upload_bills_job w s1) as [[u|e] s'] eqn:E; [reflexivity|].
    destruct (Hu s' e eq_refl) as [->|[p ->]]; reflexivity.
  - unfold serve, trigger_weekly_report, log, emit, bind, ret. fold s2.
    destruct (send_weekly_report_job w s2) as [[u|e] s'] eqn:E; [reflexivity|].
    rewrite (Hr s' e eq_refl). reflexivity.
Qed.

(** ** C4: file handles on a failed [open] *)

(** C4 (code defect). When the second selected file cannot be opened, the
    [OSError] leaves the job before its [try/finally] is entered: the
    handle of the first file is never closed. *)
Theorem partial_open_leaks_handle :
  upload_bills_job w_partial_open st_empty =
    (Exc (OSError "./bills/b.jpg"), mk_state [true] [EOpen "./bills/a.jpg" 0]).
Proof. vm_compute. reflexivity. Qed.

(** ** C5: job registration is idempotent *)

Section Registration.

Import JobStore.

Lemma hexists_In (st : store) (k : string) : hexists st k = true <-> In k (ids st).
Proof.
  unfold hexists, ids. rewrite existsb_exists, in_map_iff. split.
  - intros (j & Hj & E). apply String.eqb_eq in E. eauto.
  - intros (j & E & Hj). exists j. split; [exact Hj|]. now apply String.eqb_eq.
Qed.

Lemma lookup_app (a b : store) (k : string) :
  lookup (a ++ b) k = match lookup a k with Some j => Some j | None => lookup b k end.
Proof.
  induction a as [|j a IH]; simpl; [reflexivity|].
  unfold lookup in *. simpl. destruct (String.eqb (id j) k); auto.
Qed.

Lemma lookup_not_In (st : store) (k : string) : ~ In k (ids st) -> lookup st k = None.
Proof.
  induction st as [|j st IH]; simpl; intros H; [reflexivity|].
  unfold lookup in *. simpl. destruct (String.eqb (id j) k) eqn:E.
  - apply String.eqb_eq in E. tauto.
  - apply IH. tauto.
Qed.

Lemma ids_overwrite (st : store) (job : Job) : ids (map (overwrite job) st) = ids st.
Proof.
  induction st as [|j st IH]; simpl; [reflexivity|]. f_equal; [|exact IH].
  unfold overwrite. destruct (String.eqb (id j) (id job)) eqn:E; [|reflexivity].
  apply String.eqb_eq in E. congruence.
Qed.

Lemma lookup_overwrite_same (st : store) (job : Job) :
  In (id job) (ids st) -> lookup (map (overwrite job) st) (id job) = Some job.
Proof.
  induction st as [|j st IH]; intros H; unfold ids in *; simpl in H; [destruct H|].
  unfold lookup in *. simpl. unfold overwrite at 1.
  destruct (String.eqb (id j) (id job)) eqn:E.
  - simpl. rewrite String.eqb_refl. unfold overwrite. now rewrite E.
  - rewrite E. apply IH. destruct H as [H|H]; [|exact H].
    rewrite H, String.eqb_refl in E. discriminate.
Qed.

Lemma lookup_overwrite_other (st : store) (job : Job) (k : string) :
  k <> id job -> lookup (map (overwrite job) st) k = lookup st k.
Proof.
  intros Hk. induction st as [|j st IH]; simpl; [reflexivity|].
  unfold lookup in *. simpl.
  change (overwrite job j) with (if String.eqb (id j) (id job) then job else j).
  destruct (String.eqb (id j) (id job)) eqn:E.
  - apply String.eqb_eq in E. rewrite E.
    destruct (String.eqb (id job) k) eqn:E2.
    + apply String.eqb_eq in E2. congruence.
    + exact IH.
  - destruct (String.eqb (id j) k); [reflexivity|exact IH].
Qed.

(** One [add_job(..., replace_existing=True)] on a store without duplicate
    ids: it succeeds, keeps the ids unique, maps the job's id to the job and
    leaves every other entry alone. *)
Lemma add_job_replace (st : store) (job : Job) :
  NoDup (ids st) ->
  exists st', add_job st job true = inr st' /\
    NoDup (ids st') /\
    lookup st' (id job) = Some job /\
    (forall k, k <> id job -> lookup st' k = lookup st k) /\
    (forall k, In k (ids st') <-> k = id job \/ In k (ids st)).
Proof.
  intros Hnd. unfold add_job, redis_add_job, redis_update_job.
  destruct (hexists st (id job)) eqn:Hex.
  - apply hexists_In in Hex. exists (map (overwrite job) st).
    rewrite ids_overwrite. repeat split.
    + exact Hnd.
    + now apply lookup_overwrite_same.
    + intros k Hk. now apply lookup_overwrite_other.
    + intros Hk. now right.
    + intros [->|Hk]; assumption.
  - assert (Hni : ~ In (id job) (ids st)).
    { intros H. apply hexists_In in H. congruence. }
    exists (st ++ [job]). unfold ids in *. rewrite map_app. simpl. repeat split.
    + apply NoDup_app; auto.
      * constructor; [intros []|constructor].
      * intros x Hx [<-|[]]. contradiction.
    + rewrite lookup_app, lookup_not_In by exact Hni.
      unfold lookup. simpl. now rewrite String.eqb_refl.
    + intros k Hk. rewrite lookup_app. destruct (lookup st k); [reflexivity|].
      unfold lookup. simpl. destruct (String.eqb (id job) k) eqn:E; [|reflexivity].
      apply String.eqb_eq in E. congruence.
    + intros Hk. apply in_app_iff in Hk. simpl in Hk.
      destruct Hk as [Hk|[Hk|[]]]; auto.
    + intros Hk. apply in_app_iff. simpl. destruct Hk as [->|Hk]; auto.
Qed.

End Registration.

(** What the scheduler's operations keep. *)

Section Keeps.

Import Sched.

Variable P : sched -> Prop.

Lemma keeps_sret {A} (a : A) : keeps P (sret a).
Proof. intros s Hs. exact Hs. Qed.

Lemma keeps_sraise {A} (e : sexn) : keeps P (@sraise A e).
Proof. intros s Hs. exact Hs. Qed.

Lemma keeps_is_running : keeps P is_running.
Proof. intros s Hs. exact Hs. Qed.

Lemma keeps_sbind {A B} (m : SM A) (k : A -> SM B) :
  keeps P m -> (forall a, keeps P (k a)) -> keeps P (sbind m k).
Proof.
  intros Hm Hk s Hs. unfold sbind. specialize (Hm s Hs).
  destruct (m s) as [[a|e] s1]; simpl in *; [exact (Hk a s1 Hm)|exact Hm].
Qed.

Lemma keeps_sseq {A} (m : SM unit) (k : SM A) :
  keeps P m -> keeps P k -> keeps P (sseq m k).
Proof. intros Hm Hk. apply keeps_sbind; auto. Qed.

Lemma keeps_stry {A} (m : SM A) (h : sexn -> SM A) :
  keeps P m -> (forall e, keeps P (h e)) -> keeps P (stry m h).
Proof.
  intros Hm Hh s Hs. unfold stry. specialize (Hm s Hs).
  destruct (m s) as [[a|e] s1]; simpl in *; [exact Hm|exact (Hh e s1 Hm)].
Qed.

Hypothesis keeps_slog : forall lv msg, keeps P (slog lv msg).

Lemma keeps_log_next_run (b : bool) (msg : smessage) : keeps P (log_next_run b msg).
Proof. unfold log_next_run. destruct b; [apply keeps_slog|apply keeps_sraise]. Qed.

Lemma keeps_log_jobs (js : JobStore.store) : keeps P (log_jobs js).
Proof.
  induction js as [|j js IH]; simpl; [apply keeps_sret|].
  apply keeps_sseq; [apply keeps_slog|exact IH].
Qed.

Hypothesis keeps_add_job : forall r job rep, keeps P (add_job r job rep).

Lemma keeps_schedule_jobs (r : bool) : keeps P (schedule_jobs r).
Proof.
  unfold schedule_jobs. apply keeps_stry.
  - apply keeps_sbind; [apply keeps_add_job|intros b1].
    apply keeps_sseq; [apply keeps_log_next_run|].
    apply keeps_sbind; [apply keeps_add_job|intros b2]. apply keeps_log_next_run.
  - intros e. apply keeps_sseq; [apply keeps_slog|apply keeps_sraise].
Qed.

End Keeps.

Section SchedLemmas.

Import Sched.

Lemma filter_map_SLog (f : sevent -> bool) (lv : level) (g : JobStore.Job -> smessage)
  (l : JobStore.store) :
  (forall m, f (SLog lv m) = false) -> filter f (map (fun j => SLog lv (g j)) l) = [].
Proof. intros Hf. induction l as [|j l IH]; simpl; [reflexivity|]. now rewrite Hf. Qed.

Lemma life_events (r : bool) (st : JobStore.store) (p : list (JobStore.Job * bool))
  (es es' : list sevent) :
  life (mk_sched r st p (es ++ es')) =
  (r,
   (List.length (filter (fun e => match e with SStart => true | _ => false end) es) +
    List.length (filter (fun e => match e with SStart => true | _ => false end) es'))%nat,
   (List.length (filter (fun e => match e with SShutdown => true | _ => false end) es) +
    List.length (filter (fun e => match e with SShutdown => true | _ => false end) es'))%nat).
Proof. unfold life, starts, shutdowns. simpl. now rewrite !filter_app, !length_app. Qed.

Lemma life_slog (s : sched) lv msg : life (snd (slog lv msg s)) = life s.
Proof.
  unfold slog. simpl. rewrite life_events. simpl. rewrite !Nat.add_0_r. reflexivity.
Qed.

Lemma life_add_job (r : bool) (job : JobStore.Job) (rep : bool) (s : sched) :
  life (snd (add_job r job rep s)) = life s.
Proof.
  unfold add_job. destruct (running s) eqn:Hr.
  - unfold sseq, sbind, real_add_job, sret.
    destruct r; [|reflexivity].
    destruct (JobStore.add_job (jobs s) job rep); reflexivity.
  - simpl. rewrite life_events. simpl. rewrite !Nat.add_0_r.
    unfold life. now rewrite Hr.
Qed.

Lemma life_get_jobs (r : bool) (s : sched) : life (snd (get_jobs r s)) = life s.
Proof.
  unfold get_jobs. destruct (running s) eqn:Hr; [|reflexivity]. destruct r; [|reflexivity].
  simpl. rewrite life_events, !filter_map_SLog by reflexivity. simpl.
  rewrite !Nat.add_0_r. unfold life. now rewrite Hr.
Qed.

Lemma keeps_life_slog (L : bool * nat * nat) lv msg :
  keeps (fun s => life s = L) (slog lv msg).
Proof. intros s Hs. now rewrite life_slog. Qed.

Lemma keeps_life_schedule_jobs (L : bool * nat * nat) (r : bool) :
  keeps (fun s => life s = L) (schedule_jobs r).
Proof.
  apply keeps_schedule_jobs; [apply keeps_life_slog|].
  intros r' job rep s Hs. now rewrite life_add_job.
Qed.

(** The [try] block of [lifespan] leaves the lifecycle alone. *)
Lemma keeps_life_check_jobs (L : bool * nat * nat) (r : bool) :
  keeps (fun s => life s = L) (check_jobs r).
Proof.
  unfold check_jobs. apply keeps_stry; [|intros e; apply keeps_life_slog].
  apply keeps_sbind; [intros s Hs; now rewrite life_get_jobs|].
  intros [|j js]; (apply keeps_sseq; [apply keeps_life_slog|]).
  - apply keeps_life_schedule_jobs.
  - apply keeps_log_jobs. apply keeps_life_slog.
Qed.

Lemma keeps_jobs_log_jobs (st : JobStore.store) (js : JobStore.store) :
  keeps (fun s => jobs s = st) (log_jobs js).
Proof. apply keeps_log_jobs. intros lv msg s Hs. exact Hs. Qed.




(** [schedule_jobs] on a running scheduler whose Redis store answers. *)
Lemma schedule_jobs_running (s : sched) :
  running s = true -> NoDup (JobStore.ids (jobs s)) ->
  exists st',
    schedule_jobs true s =
      (SOk tt, mk_sched true st' (pending s)
                 (events s ++ [SLog INFO UploadScheduled; SLog INFO ReportScheduled])) /\
    NoDup (JobStore.ids st') /\
    JobStore.lookup st' "upload_bills_job" = Some JobStore.upload_job /\
    JobStore.lookup st' "send_weekly_report_job" = Some JobStore.report_job /\
    (forall k, k <> "upload_bills_job" -> k <> "send_weekly_report_job" ->
               JobStore.lookup st' k = JobStore.lookup (jobs s) k) /\
    (forall k, In k (JobStore.ids st') <->
               k = "upload_bills_job" \/ k = "send_weekly_report_job" \/
               In k (JobStore.ids (jobs s))).
Proof.
  intros Hrun Hnd.
  destruct (add_job_replace (jobs s) JobStore.upload_job Hnd)
    as (st1 & E1 & Hnd1 & Hu1 & Ho1 & Hi1).
  destruct (add_job_replace st1 JobStore.report_job Hnd1)
    as (st2 & E2 & Hnd2 & Hr2 & Ho2 & Hi2).
  exists st2. split.
  - destruct s as [run st p es]. simpl in Hrun, E1 |- *. subst run.
    unfold schedule_jobs, add_job, real_add_job, log_next_run, slog, sret, sseq, sbind, stry.
    simpl. rewrite E1. simpl. rewrite E2. simpl. rewrite <- app_assoc. reflexivity.
  - repeat split; auto.
    + rewrite Ho2 by discriminate. exact Hu1.
    + intros k Hk1 Hk2. rewrite Ho2 by exact Hk2. now apply Ho1.
    + intros Hk. apply Hi2 in Hk. destruct Hk as [Hk|Hk]; [tauto|].
      apply Hi1 in Hk. tauto.
    + intros Hk. apply Hi2. destruct Hk as [Hk|[Hk|Hk]].
      * right. apply Hi1. now left.
      * now left.
      * right. apply Hi1. now right.
Qed.


End SchedLemmas.





(** ** C6: which files the upload job selects *)

Lemma py_endswith_lower (f ext : string) :
  py_endswith (py_lower f) ext = true <->
  (String.length ext <= String.length f)%nat /\
  py_lower (substring (String.length f - String.length ext) (String.length ext) f) = ext.
Proof.
  unfold py_endswith. rewrite py_lower_length, py_lower_substring.
  rewrite andb_true_iff, Nat.leb_le, String.eqb_eq. reflexivity.
Qed.

(** C6. The selection test accepts exactly the names whose last
    characters are, ignoring case, ".jpg", ".jpeg" or ".png" (so "scan.JPG"
    is taken, "scan.gif" and "scan.txt" are not); and when a listing holds
    no such name the job only logs that no bill was found and returns
    normally, with no remote call (nor any other effect). *)
Theorem bill_selection_and_empty_run :
  (forall f, is_bill_file f = true <-> spec_has_image_extension f) /\
  is_bill_file "scan.JPG" = true /\ is_bill_file "scan.jpg" = true /\
  is_bill_file "scan.Jpeg" = true /\ is_bill_file "scan.PNG" = true /\
  is_bill_file "scan.gif" = false /\ is_bill_file "scan.txt" = false /\
  (forall w s names,
     w_listing w = Some names -> filter is_bill_file names = [] ->
     upload_bills_job w s =
       (Ok tt, mk_state (handles s) (trace s ++ [ELog INFO (MsgNoBillFiles (BILLS_DIRECTORY w))]))).
Proof.
  split; [|repeat split; try reflexivity].
  - intros f. unfold is_bill_file, py_endswith_any, spec_has_image_extension.
    rewrite existsb_exists. split.
    + intros (ext & Hin & H). apply py_endswith_lower in H. eauto.
    + intros (ext & Hin & H). exists ext. split; [exact Hin|].
      now apply py_endswith_lower.
  - intros w s names Hl Hf. unfold upload_bills_job, os_listdir. unfold_job.
    rewrite Hl, scan_directory_none by exact Hf. reflexivity.
Qed.

(** ** C7, C8: the weekly report window *)

(** C7 (code defect). At the weekly cron time, Sunday 15 June 2025 13:00,
    the window of services/Schedulers.py runs from Monday 2 June 13:00 to
    Sunday 8 June 13:00: both ends keep the time of day of the call, and the
    report request carries these instants. *)
Theorem weekly_window_keeps_time_of_day :
  weekday sunday_1pm = 6%Z /\
  weekly_window sunday_1pm =
    Some (datetime_of 2025 6 2 13 0 0 0, datetime_of 2025 6 8 13 0 0 0) /\
  remote_calls (trace (snd (send_weekly_report_job w_demo st_empty))) =
    [EReportCall [("startDate", "2025-06-02T13:00:00"); ("endDate", "2025-06-08T13:00:00")]].
Proof. vm_compute. repeat split. Qed.

(** C8 (code defect). Two calls within the same second, half a second
    apart, get two different windows, and send two different report
    requests: the window keeps the microseconds of the call. *)
Theorem weekly_window_not_stable_within_second :
  (ordinal sunday_1pm = ordinal sunday_1pm_half /\ hour sunday_1pm = hour sunday_1pm_half /\
   minute sunday_1pm = minute sunday_1pm_half /\ second sunday_1pm = second sunday_1pm_half) /\
  weekly_window sunday_1pm <> weekly_window sunday_1pm_half /\
  remote_calls (trace (snd (send_weekly_report_job w_demo_half st_empty))) =
    [EReportCall [("startDate", "2025-06-02T13:00:00.500000");
                  ("endDate", "2025-06-08T13:00:00.500000")]] /\
  remote_calls (trace (snd (send_weekly_report_job w_demo st_empty))) <>
  remote_calls (trace (snd (send_weekly_report_job w_demo_half st_empty))).
Proof. vm_compute. repeat split; congruence. Qed.

(** The day [weekday + 1] days back is a Sunday, and six days before it
    is a Monday. *)
Lemma weekday_shift (o : Z) :
  ((o - ((o + 6) mod 7 + 1) + 6) mod 7 = 6 /\
   (o - ((o + 6) mod 7 + 1) - 6 + 6) mod 7 = 0)%Z.
Proof.
  pose proof (Z.div_mod (o + 6) 7 ltac:(lia)) as Hd.
  pose proof (Z.mod_pos_bound (o + 6) 7 ltac:(lia)) as Hb.
  set (q := ((o + 6) / 7)%Z) in *. set (r := ((o + 6) mod 7)%Z) in *.
  split.
  - symmetry. apply (Z.mod_unique_pos _ _ (q - 1)); lia.
  - symmetry. apply (Z.mod_unique_pos _ _ (q - 1)); lia.
Qed.

(** The window of the sibling revision services/ReceiptService.py: for a
    call on any valid day past the first fortnight of the calendar, it runs
    from the Monday 00:01 to the Sunday 23:59:59 of the previous week, and
    start precedes end. *)
Lemma window_ReceiptService_bounds (today : datetime) :
  valid today -> (14 <= ordinal today)%Z ->
  exists first_day last_day,
    weekly_window_ReceiptService today = Some (first_day, last_day) /\
    weekday first_day = 0%Z /\ weekday last_day = 6%Z /\
    hour first_day = 0%Z /\ minute first_day = 1%Z /\
    hour last_day = 23%Z /\ minute last_day = 59%Z /\
    dt_le first_day last_day = true /\
    (ordinal today - 7 <= ordinal last_day < ordinal today)%Z /\
    ordinal first_day = (ordinal last_day - 6)%Z.
Proof.
  intros (Ho & _) H14.
  unfold weekly_window_ReceiptService, weekly_window, sub_days, weekday.
  pose proof (Z.mod_pos_bound (ordinal today + 6) 7 ltac:(lia)) as Hb.
  destruct (weekday_shift (ordinal today)) as [W6 W0].
  simpl. set (r := ((ordinal today + 6) mod 7)%Z) in *.
  destruct ((0 <? ordinal today - (r + 1))%Z && (ordinal today - (r + 1) <=? MAXORDINAL)%Z)
    eqn:E1.
  2:{ exfalso. apply andb_false_iff in E1. unfold MAXORDINAL in *.
      destruct E1 as [E|E]; [apply Z.ltb_ge in E|apply Z.leb_gt in E]; lia. }
  simpl. destruct ((0 <? ordinal today - (r + 1) - 6)%Z &&
                   (ordinal today - (r + 1) - 6 <=? MAXORDINAL)%Z) eqn:E2.
  2:{ exfalso. apply andb_false_iff in E2. unfold MAXORDINAL in *.
      destruct E2 as [E|E]; [apply Z.ltb_ge in E|apply Z.leb_gt in E]; lia. }
  eexists; eexists; split; [reflexivity|]. simpl.
  repeat split; auto; try lia.
  unfold dt_le, key. simpl. apply orb_true_iff. left. apply Z.ltb_lt. lia.
Qed.

(** In the sibling revision the window depends on the calendar day of the
    call only. *)
Lemma window_ReceiptService_same_day (a b : datetime) :
  ordinal a = ordinal b ->
  weekly_window_ReceiptService a = weekly_window_ReceiptService b.
Proof.
  intros E. unfold weekly_window_ReceiptService, weekly_window, sub_days, weekday.
  rewrite E. simpl.
  destruct (_ && _); [|reflexivity]. simpl.
  destruct (_ && _); reflexivity.
Qed.

(** ** C9: the base URL of the jobs' API sessions *)

Section Preservation.

Variable P : state -> Prop.

Lemma pres_ret {A} (a : A) : preserves P (ret a).
Proof. intros w s H. exact H. Qed.

Lemma pres_raise {A} (e : exn) : preserves P (@raise A e).
Proof. intros w s H. exact H. Qed.

Lemma pres_ask : preserves P ask.
Proof. intros w s H. exact H. Qed.

Lemma pres_bind {A B} (m : M A) (k : A -> M B) :
  preserves P m -> (forall a, preserves P (k a)) -> preserves P (bind m k).
Proof.
  intros Hm Hk w s H. unfold bind. specialize (Hm w s H).
  destruct (m w s) as [[a|e] s']; simpl in *; [apply Hk|]; exact Hm.
Qed.

Lemma pres_try_except {A} (m : M A) (h : exn -> M A) :
  preserves P m -> (forall e, preserves P (h e)) -> preserves P (try_except m h).
Proof.
  intros Hm Hh w s H. unfold try_except. specialize (Hm w s H).
  destruct (m w s) as [[a|e] s']; simpl in *; [exact Hm|]. apply Hh, Hm.
Qed.

Lemma pres_try_finally {A} (m : M A) (f : M unit) :
  preserves P m -> preserves P f -> preserves P (try_finally m f).
Proof.
  intros Hm Hf w s H. unfold try_finally. specialize (Hm w s H).
  destruct (m w s) as [r s1]. simpl in Hm. specialize (Hf w s1 Hm).
  destruct (f w s1) as [[]  s2]; exact Hf.
Qed.

(** [P] looks at the trace only through the sessions it creates, and
    accepts sessions on the jobs' base URL. *)
Hypothesis P_step : forall s hs e,
  (forall u, e <> ESession u) -> P s -> P (mk_state hs (trace s ++ [e])).
Hypothesis P_session : forall s,
  P s -> P (mk_state (handles s) (trace s ++ [ESession API_BASE_URL])).

Lemma pres_emit (e : event) : (forall u, e <> ESession u) -> preserves P (emit e).
Proof. intros He w s H. now apply P_step. Qed.

Lemma pres_log (lv : level) (msg : message) : preserves P (log lv msg).
Proof. apply pres_emit. discriminate. Qed.

Lemma pres_os_listdir (dir : string) : preserves P (os_listdir dir).
Proof. intros w s H. unfold os_listdir. now destruct (w_listing w). Qed.

Lemma pres_py_open (path : string) : preserves P (py_open path).
Proof.
  intros w s H. unfold py_open. destruct (w_can_open w path); [|exact H].
  apply P_step; [discriminate|exact H].
Qed.

Lemma pres_file_close (h : nat) : preserves P (file_close h).
Proof. intros w s H. apply P_step; [discriminate|exact H]. Qed.

Lemma pres_os_remove (path : string) : preserves P (os_remove path).
Proof.
  intros w s H. unfold os_remove. destruct (w_can_remove w path);
    (apply P_step; [discriminate|exact H]).
Qed.

Lemma pres_handle_response (ok : bool) : preserves P (handle_response ok).
Proof. unfold handle_response. destruct ok; [apply pres_ret|apply pres_raise]. Qed.

(** The jobs' constructor call: the explicit base URL wins over the
    environment. *)
Lemma pres_client_init (verify : bool) :
  preserves P (ReceiptApiClient_init (Some API_BASE_URL) verify).
Proof.
  intros w s H. unfold ReceiptApiClient_init, bind, ask, emit, ret. simpl.
  now apply P_session.
Qed.

Lemma pres_client_close (c : ReceiptApiClient) : preserves P (client_close c).
Proof. apply pres_emit. discriminate. Qed.

Lemma pres_upload_receipts (c : ReceiptApiClient) (files : list nat) :
  preserves P (upload_receipts c files).
Proof.
  unfold upload_receipts. apply pres_bind; [apply pres_emit; discriminate|].
  intros _. apply pres_bind; [apply pres_ask|]. intros w. apply pres_handle_response.
Qed.

Lemma pres_send_report_by_email (c : ReceiptApiClient) (a b : datetime) (email : option string) :
  preserves P (send_report_by_email c a b email).
Proof.
  unfold send_report_by_email. apply pres_bind; [apply pres_emit; discriminate|].
  intros _. apply pres_bind; [apply pres_ask|]. intros w. apply pres_handle_response.
Qed.

Lemma pres_async_with {A} (ctor : M ReceiptApiClient) (body : ReceiptApiClient -> M A) :
  preserves P ctor -> (forall c, preserves P (body c)) -> preserves P (async_with ctor body).
Proof.
  intros Hc Hb. unfold async_with. apply pres_bind; [exact Hc|].
  intros c. apply pres_try_finally; [apply Hb|apply pres_client_close].
Qed.

Lemma pres_scan_directory dir names fp bf : preserves P (scan_directory dir names fp bf).
Proof.
  revert fp bf. induction names as [|n names IH]; intros fp bf; simpl.
  - apply pres_ret.
  - destruct (is_bill_file n); [|apply IH].
    apply pres_bind; [apply pres_py_open|]. intros h. apply IH.
Qed.

Lemma pres_remove_files (ps : list string) : preserves P (remove_files ps).
Proof.
  induction ps as [|p ps IH]; simpl; [apply pres_ret|].
  apply pres_bind; [|intros _; exact IH].
  apply pres_try_except; [|intros _; apply pres_log].
  apply pres_bind; [apply pres_os_remove|intros _; apply pres_log].
Qed.

Lemma pres_close_all (bf : list nat) : preserves P (close_all bf).
Proof.
  induction bf as [|h bf IH]; simpl; [apply pres_ret|].
  apply pres_bind; [apply pres_file_close|intros _; exact IH].
Qed.

End Preservation.

Create HintDb sessions.

#[export] Hint Resolve pres_ret pres_raise pres_ask pres_log pres_os_listdir
  pres_client_init pres_upload_receipts pres_send_report_by_email
  pres_scan_directory pres_remove_files pres_close_all : sessions.

Ltac preserve_tac :=
  repeat match goal with
  | |- forall _, _ => intro
  | |- preserves _ (bind _ _) => apply pres_bind
  | |- preserves _ (try_except _ _) => apply pres_try_except
  | |- preserves _ (try_finally _ _) => apply pres_try_finally
  | |- preserves _ (async_with _ _) => apply pres_async_with; try assumption
  | |- preserves _ (match ?x with _ => _ end) => destruct x
  | |- preserves _ (let '(_, _) := ?x in _) => destruct x
  | |- preserves _ _ => cbv beta; eauto with sessions
  end.

Lemma pres_upload_bills_job (P : state -> Prop) :
  (forall s hs e, (forall u, e <> ESession u) -> P s -> P (mk_state hs (trace s ++ [e]))) ->
  (forall s, P s -> P (mk_state (handles s) (trace s ++ [ESession API_BASE_URL]))) ->
  preserves P upload_bills_job.
Proof. intros H1 H2. unfold upload_bills_job. preserve_tac. Qed.

Lemma pres_send_weekly_report_job (P : state -> Prop) :
  (forall s hs e, (forall u, e <> ESession u) -> P s -> P (mk_state hs (trace s ++ [e]))) ->
  (forall s, P s -> P (mk_state (handles s) (trace s ++ [ESession API_BASE_URL]))) ->
  preserves P send_weekly_report_job.
Proof. intros H1 H2. unfold send_weekly_report_job. preserve_tac. Qed.

(** C9 (counterexample). With [RECEIPT_API_URL] set to another server,
    both jobs still open their session on the hard-coded
    "https://receipt-analyser-api:8082". *)
Lemma job_sessions_ignore_env_url :
  w_env_receipt_api_url w_env_url = Some "https://receipts.internal:9443" /\
  session_urls (trace (snd (upload_bills_job w_env_url st_empty))) =
    ["https://receipt-analyser-api:8082"] /\
  session_urls (trace (snd (send_weekly_report_job w_env_url st_empty))) =
    ["https://receipt-analyser-api:8082"].
Proof. vm_compute. repeat split. Qed.

(** C9 (amended). Whatever the environment, every API client session a
    run of either job creates uses the base URL hard-coded in the job,
    "https://receipt-analyser-api:8082". *)
Theorem job_sessions_use_fixed_url (w : world) (s : state) :
  (forall u, In u (session_urls (trace (snd (upload_bills_job w s)))) ->
             In u (session_urls (trace s)) \/ u = "https://receipt-analyser-api:8082") /\
  (forall u, In u (session_urls (trace (snd (send_weekly_report_job w s)))) ->
             In u (session_urls (trace s)) \/ u = "https://receipt-analyser-api:8082").
Proof.
  set (P := fun st : state => forall u, In u (session_urls (trace st)) ->
                               In u (session_urls (trace s)) \/ u = API_BASE_URL).
  assert (Hstep : forall st hs e, (forall u, e <> ESession u) -> P st ->
                                  P (mk_state hs (trace st ++ [e]))).
  { intros st hs e He H u Hu. simpl in Hu. rewrite session_urls_app in Hu.
    apply in_app_iff in Hu. destruct Hu as [Hu|Hu]; [now apply H|].
    destruct e; simpl in Hu; try contradiction.
    destruct Hu as [<-|[]]. exfalso. eapply He. reflexivity. }
  assert (Hsess : forall st, P st ->
                  P (mk_state (handles st) (trace st ++ [ESession API_BASE_URL]))).
  { intros st H u Hu. simpl in Hu. rewrite session_urls_app in Hu.
    apply in_app_iff in Hu. destruct Hu as [Hu|[<-|[]]]; [now apply H|now right]. }
  assert (H0 : P s) by (intros u Hu; now left).
  split.
  - exact (pres_upload_bills_job P Hstep Hsess w s H0).
  - exact (pres_send_weekly_report_job P Hstep Hsess w s H0).
Qed.

(** ** C10: the report request payload *)

(** C10. [send_report_by_email] posts one payload holding "startDate" and
    "endDate" as the [isoformat()] strings of its two datetimes, and the
    "email" key exactly when the email argument is truthy: [None] and the
    empty string both leave it out. *)
Theorem report_payload_shape (c : ReceiptApiClient) (a b : datetime)
  (email : option string) (w : world) (s : state) :
  let payload := report_payload a b email in
  trace (snd (send_report_by_email c a b email w s)) = trace s ++ [EReportCall payload] /\
  dict_get payload "startDate" = Some (isoformat a) /\
  dict_get payload "endDate" = Some (isoformat b) /\
  map fst payload = ["startDate"; "endDate"] ++ (if py_truthy email then ["email"] else []) /\
  (forall v, dict_get payload "email" = Some v <-> email = Some v /\ v <> "") /\
  (dict_get payload "email" = None <-> py_truthy email = false).
Proof.
  intros payload. split.
  { unfold send_report_by_email, bind, emit, ask, handle_response, ret, raise.
    simpl. destruct (w_report_ok w); reflexivity. }
  unfold payload, report_payload, py_truthy.
  destruct email as [v|]; [destruct (String.eqb v "") eqn:E|]; simpl;
    [apply String.eqb_eq in E; subst v|apply String.eqb_neq in E|];
    repeat split; try reflexivity; intuition congruence.
Qed.

(** ** The theorems at concrete inputs *)

Lemma upload_removes_only_after_success_witness :
  removals (trace (snd (upload_bills_job w_demo st_empty))) =
    [("./bills/a.JPG", true); ("./bills/b.png", false)] /\
  fst (upload_bills_job w_demo st_empty) = Ok tt.
Proof.
  destruct (upload_removes_only_after_success w_demo st_empty
              (snd (upload_bills_job w_demo st_empty)) (fst (upload_bills_job w_demo st_empty))
              ltac:(vm_compute; reflexivity)) as [_ H].
  destruct (H eq_refl ["a.JPG"; "notes.txt"; "b.png"; "c.gif"] eq_refl
              ltac:(intros; reflexivity)) as (Hr & Hrem & _).
  split; [|exact Hr]. rewrite Hrem. vm_compute. reflexivity.
Defined.

Lemma upload_failure_logged_and_swallowed_witness :
  fst (upload_bills_job w_upload_fails st_empty) = Ok tt /\
  handles (snd (upload_bills_job w_upload_fails st_empty)) = [false] /\
  In (ELog ERROR MsgUploadingError) (trace (snd (upload_bills_job w_upload_fails st_empty))).
Proof.
  destruct (upload_failure_logged_and_swallowed w_upload_fails st_empty
              (snd (upload_bills_job w_upload_fails st_empty))
              (fst (upload_bills_job w_upload_fails st_empty)) ["a.jpg"]
              ltac:(vm_compute; reflexivity) eq_refl ltac:(intros; reflexivity)
              ltac:(vm_compute; congruence) eq_refl) as (Hr & Hh & _ & Hlog).
  split; [exact Hr|split; [rewrite Hh; reflexivity|exact Hlog]].
Defined.

Lemma trigger_endpoints_http_witness :
  reply (serve trigger_upload_bills w_no_dir st_empty) =
    mk_reply 500 (TextBody "Internal Server Error") /\
  server_log (serve trigger_upload_bills w_no_dir st_empty) = [FileNotFoundError "./bills"].
Proof.
  pose proof (trigger_endpoints_http w_no_dir st_empty) as H. cbv zeta in H.
  destruct H as [H _]. rewrite H. vm_compute. split; reflexivity.
Defined.


Lemma bill_selection_and_empty_run_witness :
  fst (upload_bills_job w_no_images st_empty) = Ok tt /\
  remote_calls (trace (snd (upload_bills_job w_no_images st_empty))) = [].
Proof.
  destruct bill_selection_and_empty_run as (_ & _ & _ & _ & _ & _ & _ & H).
  rewrite (H w_no_images st_empty ["notes.txt"; "c.gif"] eq_refl
             ltac:(vm_compute; reflexivity)).
  split; reflexivity.
Defined.

Lemma job_sessions_use_fixed_url_witness :
  ~ In "https://receipts.internal:9443"
      (session_urls (trace (snd (upload_bills_job w_env_url st_empty)))).
Proof.
  intros Hin. destruct (job_sessions_use_fixed_url w_env_url st_empty) as [H _].
  destruct (H _ Hin) as [Hs|E]; [simpl in Hs; contradiction|discriminate E].
Defined.

(** * Further properties of the code *)


(** ** services/ReceiptApiClient.py *)

Lemma file_key_inj (i j : nat) : file_key i = file_key j -> i = j.
Proof.
  unfold file_key, py_str_nat. simpl. intros H. injection H as H.
  apply (f_equal NilEmpty.uint_of_string) in H. rewrite !NilEmpty.usu in H.
  injection H as H. now apply Unsigned.to_uint_inj.
Qed.

Lemma pydict_set_new {V} (d : list (string * V)) (k : string) (v : V) :
  ~ In k (map fst d) -> pydict_set d k v = d ++ [(k, v)].
Proof.
  induction d as [|[k' v'] d IH]; simpl; intros H; [reflexivity|].
  destruct (String.eqb k k') eqn:E.
  - apply String.eqb_eq in E. subst k'. tauto.
  - rewrite IH; tauto.
Qed.

Lemma files_dict_from_spec (i : nat) (files : list nat) (d : list (string * nat)) :
  (forall j, (i <= j)%nat -> ~ In (file_key j) (map fst d)) ->
  files_dict_from i files d = d ++ combine (map file_key (seq i (List.length files))) files.
Proof.
  revert i d. induction files as [|f files IH]; intros i d H; simpl.
  - now rewrite app_nil_r.
  - rewrite pydict_set_new by (apply H; lia).
    rewrite IH.
    + now rewrite <- app_assoc.
    + intros j Hj. rewrite map_app. simpl. rewrite in_app_iff. simpl.
      intros [Hin|[E|[]]]; [exact (H j ltac:(lia) Hin)|].
      apply file_key_inj in E. lia.
Qed.

Lemma map_fst_combine_keys (i : nat) (files : list nat) :
  map fst (combine (map file_key (seq i (List.length files))) files) =
  map file_key (seq i (List.length files)).
Proof.
  revert i. induction files as [|f files IH]; intros i; simpl; [reflexivity|].
  now rewrite IH.
Qed.

Lemma pydict_get_combine_keys (i j : nat) (files : list nat) :
  pydict_get (combine (map file_key (seq i (List.length files))) files) (file_key (i + j)) =
  nth_error files j.
Proof.
  revert i j. induction files as [|f files IH]; intros i j; cbn -[file_key String.eqb].
  - destruct j; reflexivity.
  - destruct (String.eqb (file_key (i + j)) (file_key i)) eqn:E.
    + apply String.eqb_eq, file_key_inj in E. assert (j = 0%nat) by lia. subst j. reflexivity.
    + destruct j as [|j].
      * rewrite Nat.add_0_r, String.eqb_refl in E. discriminate.
      * replace (i + S j)%nat with (S i + j)%nat by lia. apply IH.
Qed.

(** X3. The files of [upload_receipts] are sent under the keys "file0",
    "file1", ... in order: one distinct key per file, [f"file{i}"] holding
    the [i]-th file and no other key. *)
Theorem upload_files_dict_keys (files : list nat) :
  map fst (files_dict files) = map file_key (seq 0 (List.length files)) /\
  NoDup (map fst (files_dict files)) /\
  (forall i, pydict_get (files_dict files) (file_key i) = nth_error files i).
Proof.
  unfold files_dict. rewrite files_dict_from_spec by (intros j _ []). simpl.
  split; [|split].
  - apply map_fst_combine_keys.
  - rewrite map_fst_combine_keys. apply NoDup_map_NoDup_ForallPairs; [|apply seq_NoDup].
    intros x y _ _. apply file_key_inj.
  - intros i. apply (pydict_get_combine_keys 0 i).
Qed.

(** ** services/Schedulers.py: the jobs, and the endpoints of main.py *)

(** X4. On every valid day past the first fortnight of the calendar, the
    weekly report job makes exactly one [POST /reports], for its window and
    without an email, in one session on the fixed base URL. It returns
    normally whether the call succeeds or not, logs the failure when it
    fails, and opens no file. *)
Theorem weekly_report_job_single_call (w : world) (s : state) :
  valid (w_now w) -> (14 <= ordinal (w_now w))%Z ->
  exists first_day last_day,
    weekly_window (w_now w) = Some (first_day, last_day) /\
    fst (send_weekly_report_job w s) = Ok tt /\
    handles (snd (send_weekly_report_job w s)) = handles s /\
    remote_calls (trace (snd (send_weekly_report_job w s))) =
      remote_calls (trace s) ++ [EReportCall (report_payload first_day last_day None)] /\
    session_urls (trace (snd (send_weekly_report_job w s))) =
      session_urls (trace s) ++ [API_BASE_URL] /\
    (w_report_ok w = false ->
     In (ELog ERROR MsgReportError) (trace (snd (send_weekly_report_job w s)))) /\
    (w_report_ok w = true ->
     In (ELog INFO MsgReportSent) (trace (snd (send_weekly_report_job w s)))).
Proof.
  intros Hv H14. pose proof (weekday_bounds (w_now w)).
  destruct (weekly_window_defined (w_now w) Hv ltac:(lia)) as (first_day & last_day & Hw).
  exists first_day, last_day. rewrite (send_weekly_report_job_some w s first_day last_day Hw).
  simpl. rewrite remote_calls_app, session_urls_app.
  split; [exact Hw|]. split; [reflexivity|]. split; [reflexivity|].
  destruct (w_report_ok w); simpl; repeat split; try discriminate;
    intros _; rewrite in_app_iff; simpl; tauto.
Qed.

(** X5. Under the same condition [POST /trigger-report] always answers
    "Weekly report job completed", also when the report request fails. *)
Theorem trigger_weekly_report_always_completes (w : world) (s : state) :
  valid (w_now w) -> (14 <= ordinal (w_now w))%Z ->
  fst (trigger_weekly_report w s) = Ok [("message", "Weekly report job completed")].
Proof.
  intros Hv H14. pose proof (weekday_bounds (w_now w)).
  destruct (weekly_window_defined (w_now w) Hv ltac:(lia)) as (first_day & last_day & Hw).
  unfold trigger_weekly_report, log, emit, bind, ret.
  rewrite (send_weekly_report_job_some w _ first_day last_day Hw). reflexivity.
Qed.

(** X6. When the bills directory exists and every selected file opens,
    [POST /trigger-upload] answers "Bill upload job completed", whatever
    the outcome of the upload request and of the removals. *)
Theorem trigger_upload_bills_completes (w : world) (s : state) (names : list string) :
  w_listing w = Some names ->
  (forall n, In n names -> is_bill_file n = true ->
             w_can_open w (os_path_join (BILLS_DIRECTORY w) n) = true) ->
  fst (trigger_upload_bills w s) = Ok [("message", "Bill upload job completed")].
Proof.
  intros Hl Hopen. unfold trigger_upload_bills, log, emit, bind, ret.
  set (s1 := mk_state (handles s) (trace s ++ [ELog INFO MsgManualUpload])).
  pose proof (upload_bills_job_returns w s1 names Hl Hopen) as H.
  destruct (upload_bills_job w s1) as [[]]; simpl in H; [reflexivity|discriminate].
Qed.

(** X7. The window of services/Schedulers.py, on every valid day past the
    first fortnight: from the Monday to the Sunday of the previous week,
    the Sunday within the seven days before today, both at today's time of
    day. *)
Theorem weekly_window_previous_week (today : datetime) :
  valid today -> (14 <= ordinal today)%Z ->
  exists first_day last_day,
    weekly_window today = Some (first_day, last_day) /\
    weekday first_day = 0%Z /\ weekday last_day = 6%Z /\
    (ordinal today - 7 <= ordinal last_day < ordinal today)%Z /\
    ordinal first_day = (ordinal last_day - 6)%Z /\
    (hour first_day, minute first_day, second first_day, microsecond first_day) =
      (hour today, minute today, second today, microsecond today) /\
    (hour last_day, minute last_day, second last_day, microsecond last_day) =
      (hour today, minute today, second today, microsecond today).
Proof.
  intros Hv H14. pose proof (weekday_bounds today).
  destruct (weekly_window_defined today Hv ltac:(lia)) as (first_day & last_day & Hw).
  exists first_day, last_day. split; [exact Hw|].
  unfold weekly_window, sub_days in Hw. unfold weekday in *.
  destruct (weekday_shift (ordinal today)) as [W6 W0].
  destruct (_ && _); [|discriminate]. simpl in Hw.
  destruct (_ && _); [|discriminate]. inversion Hw; subst; simpl.
  repeat split; auto; lia.
Qed.

(** X8. When the bills directory exists and every selected file opens, the
    upload job returns normally, closes every handle it opened, and makes
    exactly one [POST /bills] with all of them in one session when some
    file is selected, and no request and no session otherwise. *)
Theorem upload_job_closes_and_calls_once (w : world) (s : state) (names : list string) :
  w_listing w = Some names ->
  (forall n, In n names -> is_bill_file n = true ->
             w_can_open w (os_path_join (BILLS_DIRECTORY w) n) = true) ->
  let k := List.length (filter is_bill_file names) in
  fst (upload_bills_job w s) = Ok tt /\
  handles (snd (upload_bills_job w s)) = handles s ++ repeat false k /\
  remote_calls (trace (snd (upload_bills_job w s))) =
    remote_calls (trace s) ++
    (if Nat.eqb k 0 then [] else [EUploadCall (seq (List.length (handles s)) k)]) /\
  session_urls (trace (snd (upload_bills_job w s))) =
    session_urls (trace s) ++ (if Nat.eqb k 0 then [] else [API_BASE_URL]).
Proof.
  intros Hl Hopen k.
  pose proof (upload_bills_job_returns w s names Hl Hopen) as Hret.
  destruct (scan_directory_opens (BILLS_DIRECTORY w) names [] [] w s Hopen)
    as (tr & Hscan & Hr & Hu).
  fold k in Hscan.
  destruct (upload_bills_job w s) as [r s'] eqn:Hrun. simpl in Hret |- *.
  split; [exact Hret|].
  unfold upload_bills_job, os_listdir in Hrun. unfold_job.
  rewrite Hl, Hscan in Hrun. simpl in Hrun.
  destruct k as [|k'] eqn:Hk; simpl in Hrun.
  - inversion Hrun; subst. simpl. rewrite !remote_calls_app, !session_urls_app, Hr, Hu.
    simpl. rewrite !app_nil_r. auto.
  - set (n := List.length (handles s)) in *.
    destruct (w_upload_ok w); simpl in Hrun.
    + rewrite remove_files_spec in Hrun. simpl in Hrun.
      change (file_close n ;;; close_all (seq (S n) k'))
        with (close_all (seq n (S k'))) in Hrun.
      rewrite close_all_spec in Hrun. inversion Hrun; subst. cbn [handles trace].
      split; [exact (close_fresh_handles (handles s) (S k') true)|].
      change (EClose n :: map EClose (seq (S n) k')) with (map EClose (seq n (S k'))).
      rewrite !remote_calls_app, !session_urls_app, Hr, Hu, remote_calls_EClose,
        session_urls_EClose. simpl.
      rewrite remote_calls_removal_events, session_urls_removal_events.
      rewrite !app_nil_r. auto.
    + change (file_close n ;;; close_all (seq (S n) k'))
        with (close_all (seq n (S k'))) in Hrun.
      rewrite close_all_spec in Hrun. inversion Hrun; subst. simpl.
      split; [exact (close_fresh_handles (handles s) (S k') true)|].
      change (EClose n :: map EClose (seq (S n) k')) with (map EClose (seq n (S k'))).
      rewrite !remote_calls_app, !session_urls_app, Hr, Hu, remote_calls_EClose,
        session_urls_EClose. simpl.
      rewrite !app_nil_r. auto.
Qed.

(** X9. On a valid day the weekly report job raises only in the first
    calendar week: it raises [OverflowError], before any session and
    without logging, exactly when today's ordinal minus its weekday is at
    most 7; on every other day it returns normally. *)
Theorem weekly_report_job_overflow (w : world) (s : state) :
  valid (w_now w) ->
  ((ordinal (w_now w) - weekday (w_now w) <= 7)%Z ->
   send_weekly_report_job w s = (Exc OverflowError, s)) /\
  ((7 < ordinal (w_now w) - weekday (w_now w))%Z ->
   fst (send_weekly_report_job w s) = Ok tt).
Proof.
  intros Hv. split.
  - intros H7. destruct Hv as (Ho & _). pose proof (weekday_bounds (w_now w)).
    unfold send_weekly_report_job, weekly_window, sub_days, ask, bind. simpl.
    unfold weekday in *. set (r := ((ordinal (w_now w) + 6) mod 7)%Z) in *.
    destruct ((0 <? ordinal (w_now w) - (r + 1))%Z && _); [|reflexivity]. simpl.
    replace ((0 <? ordinal (w_now w) - (r + 1) - 6)%Z) with false
      by (symmetry; apply Z.ltb_ge; lia).
    reflexivity.
  - intros H7. destruct (weekly_window_defined (w_now w) Hv H7) as (f & l & Hw).
    now rewrite (send_weekly_report_job_some w s f l Hw).
Qed.

(** ** services/Schedulers.py and main.py: the scheduler lifecycle *)

(** Equal lifecycles, up to arithmetic on the counts. *)
Ltac triple_eq :=
  match goal with
  | |- (?a, ?b, ?c) = (?a', ?b', ?c') =>
    let H1 := fresh in let H2 := fresh in
    assert (H1 : b = b') by lia; assert (H2 : c = c') by lia;
    apply (f_equal2 pair); [apply (f_equal2 pair); [reflexivity|exact H1]|exact H2]
  end.

Section SchedRuns.

Import Sched.

Lemma sbind_ok {A B} (m : SM A) (k : A -> SM B) (s s1 : sched) (a : A) :
  m s = (SOk a, s1) -> sbind m k s = k a s1.
Proof. intros H. unfold sbind. now rewrite H. Qed.

Lemma sseq_ok {A} (m : SM unit) (k : SM A) (s s1 : sched) :
  m s = (SOk tt, s1) -> sseq m k s = k s1.
Proof. apply sbind_ok. Qed.

Lemma slog_ok (lv : level) (msg : smessage) (s : sched) :
  slog lv msg s =
  (SOk tt, mk_sched (running s) (jobs s) (pending s) (events s ++ [SLog lv msg])).
Proof. reflexivity. Qed.

Lemma filter_restorable_idem (st : JobStore.store) :
  filter restorable (filter restorable st) = filter restorable st.
Proof.
  induction st as [|j st IH]; simpl; [reflexivity|].
  destruct (restorable j) eqn:E; simpl; [rewrite E|]; congruence.
Qed.

(** [get_jobs()] on a running scheduler whose Redis store answers. *)
Lemma get_jobs_running_ok (s : sched) :
  running s = true ->
  get_jobs true s =
    (SOk (filter restorable (jobs s)),
     mk_sched true (filter restorable (jobs s)) (pending s)
       (events s ++ map (fun j => SLog ERROR (UnableToRestore (JobStore.id j)))
                        (filter (fun j => negb (restorable j)) (jobs s)))).
Proof. intros Hr. unfold get_jobs. now rewrite Hr. Qed.

(** [initialize_scheduler] when no job is queued, as at application
    start. *)
Lemma initialize_scheduler_facts (r : bool) (s : sched) :
  pending s = [] ->
  exists s',
    initialize_scheduler r s = (SOk r, s') /\
    running s' = true /\ pending s' = [] /\
    life s' = (true, (starts s + (if running s then 0 else 1))%nat, shutdowns s) /\
    jobs s' = (if r then filter restorable (jobs s) else jobs s).
Proof.
  intros Hp. destruct s as [run st p es]. simpl in Hp |- *. subst p.
  unfold initialize_scheduler, is_running, start, get_jobs, slog, sret, sseq, sbind, stry.
  destruct run, r; simpl; eexists; (split; [reflexivity|]); simpl;
    refine (conj eq_refl (conj eq_refl (conj _ eq_refl)));
    unfold life, starts, shutdowns; simpl;
    rewrite ?filter_app, ?length_app, ?filter_map_SLog by (intros; reflexivity); simpl;
    triple_eq.
Qed.

(** The [try] block of [lifespan] never raises. *)
Lemma check_jobs_ok (r : bool) (s : sched) : exists s', check_jobs r s = (SOk tt, s').
Proof.
  unfold check_jobs, stry.
  match goal with |- context [match ?m with _ => _ end] => destruct m as [[[]|e] s1] end.
  - eauto.
  - eexists. reflexivity.
Qed.

(** Schedule the two jobs into an empty store. *)
Lemma schedule_jobs_empty (s : sched) :
  running s = true -> jobs s = [] ->
  fst (schedule_jobs true s) = SOk tt /\
  jobs (snd (schedule_jobs true s)) = [JobStore.upload_job; JobStore.report_job].
Proof.
  destruct s as [run st p es]. simpl. intros -> ->. split; reflexivity.
Qed.

(** The [try] block of [lifespan] on the running scheduler, Redis
    answering. *)
Lemma check_jobs_run (s : sched) :
  running s = true ->
  exists s2,
    check_jobs true s = (SOk tt, s2) /\ life s2 = life s /\
    jobs s2 = match filter restorable (jobs s) with
              | [] => [JobStore.upload_job; JobStore.report_job]
              | kept => kept
              end.
Proof.
  intros Hr. destruct (check_jobs_ok true s) as (s2 & E). exists s2.
  split; [exact E|]. split.
  - pose proof (keeps_life_check_jobs (life s) true s eq_refl) as H.
    rewrite E in H. exact H.
  - unfold check_jobs, stry in E.
    rewrite (sbind_ok _ _ _ _ _ (get_jobs_running_ok s Hr)) in E.
    destruct (filter restorable (jobs s)) as [|j js] eqn:Ef.
    + rewrite (sseq_ok _ _ _ _ (slog_ok _ _ _)) in E.
      match type of E with
      | context [schedule_jobs true ?s3] =>
        destruct (schedule_jobs_empty s3 eq_refl eq_refl) as [Ho Hj];
        destruct (schedule_jobs true s3) as [res s4]
      end.
      simpl in Ho, Hj. subst res. simpl in E. inversion E; subst. exact Hj.
    + match type of E with
      | context [match ?m ?s3 with _ => _ end] =>
        assert (Hk : keeps (fun s => jobs s = j :: js) m);
        [|pose proof (Hk s3 eq_refl) as Hj; destruct (m s3) as [[u|e] s4]]
      end.
      * apply keeps_sseq; [intros s' Hs; exact Hs|apply keeps_jobs_log_jobs].
      * simpl in E. inversion E; subst. exact Hj.
      * rewrite slog_ok in E. simpl in E. inversion E; subst. exact Hj.
Qed.

(** [lifespan] up to its [yield], when no job is queued. *)
Lemma lifespan_startup_facts (r : bool) (s : sched) :
  pending s = [] ->
  exists s1,
    lifespan_startup r s = (SOk r, s1) /\
    life s1 = (true, (starts s + (if running s then 0 else 1))%nat, shutdowns s) /\
    jobs s1 = (if r then
                 match filter restorable (jobs s) with
                 | [] => [JobStore.upload_job; JobStore.report_job]
                 | kept => kept
                 end
               else jobs s).
Proof.
  intros Hp. unfold lifespan_startup. rewrite (sseq_ok _ _ _ _ (slog_ok _ _ s)).
  set (s0 := mk_sched (running s) (jobs s) (pending s) (events s ++ [SLog INFO AppStarting])).
  assert (L0 : life s0 = life s) by exact (life_slog s INFO AppStarting).
  unfold life in L0. injection L0 as Hs0 Hd0.
  destruct (initialize_scheduler_facts r s0 Hp) as (s1 & E1 & R1 & P1 & L1 & J1).
  rewrite (sbind_ok _ _ _ _ _ E1).
  change (running s0) with (running s) in L1. change (jobs s0) with (jobs s) in J1.
  rewrite Hs0, Hd0 in L1.
  destruct r.
  - destruct (check_jobs_run s1 R1) as (s2 & E2 & L2 & J2).
    rewrite (sseq_ok _ _ _ _ E2). exists s2. split; [reflexivity|]. split; [congruence|].
    rewrite J2, J1, filter_restorable_idem. reflexivity.
  - rewrite (sseq_ok _ _ _ _ (slog_ok _ _ s1)). eexists. split; [reflexivity|].
    split; [exact (eq_trans (life_slog s1 ERROR StartWithoutJobs) L1)|exact J1].
Qed.

(** [lifespan] after its [yield], on the running scheduler. *)
Lemma lifespan_shutdown_run (s : sched) :
  running s = true ->
  life (snd (lifespan_shutdown s)) = (false, starts s, S (shutdowns s)).
Proof.
  destruct s as [run st p es]. simpl. intros ->.
  unfold lifespan_shutdown, shutdown_scheduler, is_running, shutdown, slog, sret, sseq, sbind.
  simpl. unfold life, starts, shutdowns. simpl.
  rewrite !filter_app, !length_app. simpl. triple_eq.
Qed.

End SchedRuns.

(** X10. [initialize_scheduler] never raises. At application start (no job
    queued) it answers whether Redis answered, starts the scheduler only
    when it was stopped and leaves it running even when it answers
    [False]; when Redis answers, its [get_jobs()] deletes every stored
    state that cannot be restored. *)
Theorem initialize_scheduler_outcome (redis_ok : bool) (s : Sched.sched) :
  (exists b, fst (Sched.initialize_scheduler redis_ok s) = Sched.SOk b) /\
  (Sched.pending s = [] ->
   let '(r, s') := Sched.initialize_scheduler redis_ok s in
   r = Sched.SOk redis_ok /\
   Sched.running s' = true /\
   Sched.pending s' = [] /\
   Sched.starts s' = (Sched.starts s + (if Sched.running s then 0 else 1))%nat /\
   Sched.shutdowns s' = Sched.shutdowns s /\
   Sched.jobs s' = (if redis_ok then filter Sched.restorable (Sched.jobs s) else Sched.jobs s)).
Proof.
  split.
  - unfold Sched.initialize_scheduler, Sched.stry.
    match goal with |- context [match ?m with _ => _ end] => destruct m as [[b|e] s1] end.
    + exists b. reflexivity.
    + exists false. reflexivity.
  - intros Hp. destruct (initialize_scheduler_facts redis_ok s Hp) as (s' & E & R & P & L & J).
    rewrite E. unfold Sched.life in L. injection L as Hs Hd.
    repeat split; assumption.
Qed.

(** X11. One run of the application's [lifespan] (no job queued at start)
    starts the scheduler unless it already ran. When Redis answers, the
    code after [yield] shuts it down, and it ends stopped; when Redis does
    not answer, the early [yield; return] skips that code: the scheduler
    started by [initialize_scheduler] is never shut down and ends
    running. *)
Theorem lifespan_lifecycle (redis_ok : bool) (s : Sched.sched) :
  Sched.pending s = [] ->
  let s' := snd (Sched.lifespan redis_ok s) in
  Sched.starts s' = (Sched.starts s + (if Sched.running s then 0 else 1))%nat /\
  Sched.running s' = negb redis_ok /\
  Sched.shutdowns s' = (Sched.shutdowns s + (if redis_ok then 1 else 0))%nat.
Proof.
  intros Hp s'. unfold s', Sched.lifespan.
  destruct (lifespan_startup_facts redis_ok s Hp) as (s1 & E1 & L1 & _).
  rewrite (sbind_ok _ _ _ _ _ E1).
  assert (R1 : Sched.running s1 = true) by (unfold Sched.life in L1; congruence).
  destruct redis_ok.
  - pose proof (lifespan_shutdown_run s1 R1) as L2. unfold Sched.life in L1, L2.
    injection L1 as _ Hs1 Hd1. injection L2 as R2 Hs2 Hd2.
    rewrite R2, Hs2, Hd2, Hs1, Hd1. split; [reflexivity|split; [reflexivity|lia]].
  - unfold Sched.life in L1. injection L1 as _ Hs1 Hd1. simpl.
    rewrite R1, Hs1, Hd1. split; [reflexivity|split; [reflexivity|lia]].
Qed.

(** X12. At application start (no job queued), when Redis answers, the
    stored states that cannot be restored are deleted, and the two jobs
    are registered exactly when nothing restorable is left: a store of
    outdated entries whose callables no longer resolve ends with both
    jobs, while a store with any restorable job, even an outdated one or
    only one of the two, keeps just its restorable entries. When Redis
    does not answer, the store is left as it is. *)
Theorem lifespan_registers_only_on_empty_store (redis_ok : bool) (s : Sched.sched) :
  Sched.pending s = [] ->
  Sched.jobs (snd (Sched.lifespan_startup redis_ok s)) =
    if redis_ok then
      match filter Sched.restorable (Sched.jobs s) with
      | [] => [JobStore.upload_job; JobStore.report_job]
      | kept => kept
      end
    else Sched.jobs s.
Proof.
  intros Hp. destruct (lifespan_startup_facts redis_ok s Hp) as (s1 & E1 & _ & J1).
  rewrite E1. exact J1.
Qed.

(** X13. [schedule_jobs] on a stopped scheduler queues the upload job
    only, raises [AttributeError] at its [next_run_time] (logged and
    re-raised) and leaves the store as it is; on a running scheduler whose
    Redis does not answer it logs and re-raises [ConnectionError], the
    store unchanged; on a running scheduler whose Redis answers, over a
    store without duplicate ids, it returns normally, holds the two jobs
    under their ids and leaves every other entry as it was. *)
Theorem schedule_jobs_outcome (redis_ok : bool) (s : Sched.sched) :
  (Sched.running s = false ->
   Sched.schedule_jobs redis_ok s =
     (Sched.SExc Sched.AttributeError,
      Sched.mk_sched false (Sched.jobs s) (Sched.pending s ++ [(JobStore.upload_job, true)])
        (Sched.events s ++ [Sched.SLog INFO (Sched.AddingTentatively "upload_bills_job");
                            Sched.SLog ERROR Sched.ScheduleError]))) /\
  (Sched.running s = true ->
   Sched.schedule_jobs false s =
     (Sched.SExc Sched.RedisConnectionError,
      Sched.mk_sched true (Sched.jobs s) (Sched.pending s)
        (Sched.events s ++ [Sched.SLog ERROR Sched.ScheduleError]))) /\
  (Sched.running s = true -> NoDup (JobStore.ids (Sched.jobs s)) ->
   exists st',
     Sched.schedule_jobs true s =
       (Sched.SOk tt,
        Sched.mk_sched true st' (Sched.pending s)
          (Sched.events s ++ [Sched.SLog INFO Sched.UploadScheduled;
                              Sched.SLog INFO Sched.ReportScheduled])) /\
     JobStore.lookup st' "upload_bills_job" = Some JobStore.upload_job /\
     JobStore.lookup st' "send_weekly_report_job" = Some JobStore.report_job /\
     (forall k, k <> "upload_bills_job" -> k <> "send_weekly_report_job" ->
                JobStore.lookup st' k = JobStore.lookup (Sched.jobs s) k)).
Proof.
  split; [|split].
  - destruct s as [run st p es]. simpl. intros ->.
    unfold Sched.schedule_jobs, Sched.add_job, Sched.log_next_run, Sched.slog, Sched.sraise,
      Sched.sseq, Sched.sbind, Sched.stry.
    simpl. rewrite <- app_assoc. reflexivity.
  - destruct s as [run st p es]. simpl. intros ->. reflexivity.
  - intros Hr Hnd.
    destruct (schedule_jobs_running s Hr Hnd) as (st' & E & _ & Hu & Hrep & Ho & _).
    exists st'. auto.
Qed.

(** ** The further properties at concrete inputs *)

Lemma weekly_report_job_single_call_witness :
  fst (send_weekly_report_job w_report_fails st_empty) = Ok tt /\
  In (ELog ERROR MsgReportError) (trace (snd (send_weekly_report_job w_report_fails st_empty))).
Proof.
  destruct (weekly_report_job_single_call w_report_fails st_empty
              ltac:(vm_compute; repeat split; discriminate)
              ltac:(vm_compute; discriminate))
    as (f & l & _ & Hr & _ & _ & _ & Hlog & _).
  split; [exact Hr|exact (Hlog eq_refl)].
Defined.

Lemma trigger_weekly_report_always_completes_witness :
  fst (trigger_weekly_report w_report_fails st_empty) =
    Ok [("message", "Weekly report job completed")].
Proof.
  exact (trigger_weekly_report_always_completes w_report_fails st_empty
           ltac:(vm_compute; repeat split; discriminate)
           ltac:(vm_compute; discriminate)).
Defined.

Lemma trigger_upload_bills_completes_witness :
  fst (trigger_upload_bills w_upload_fails st_empty) =
    Ok [("message", "Bill upload job completed")].
Proof.
  exact (trigger_upload_bills_completes w_upload_fails st_empty ["a.jpg"] eq_refl
           ltac:(intros; reflexivity)).
Defined.

Lemma weekly_window_previous_week_witness :
  exists first_day last_day,
    weekly_window sunday_1pm = Some (first_day, last_day) /\
    weekday first_day = 0%Z /\ weekday last_day = 6%Z.
Proof.
  destruct (weekly_window_previous_week sunday_1pm
              ltac:(vm_compute; repeat split; discriminate)
              ltac:(vm_compute; discriminate))
    as (f & l & E & W0 & W6 & _).
  exists f, l. split; [exact E|split; [exact W0|exact W6]].
Defined.

Lemma upload_job_closes_and_calls_once_witness :
  handles (snd (upload_bills_job w_demo st_empty)) = [false; false] /\
  remote_calls (trace (snd (upload_bills_job w_demo st_empty))) = [EUploadCall [0; 1]].
Proof.
  destruct (upload_job_closes_and_calls_once w_demo st_empty ["a.JPG"; "notes.txt"; "b.png"; "c.gif"]
              eq_refl ltac:(intros; reflexivity)) as (_ & Hh & Hc & _).
  rewrite Hh, Hc. vm_compute. split; reflexivity.
Defined.

Lemma weekly_report_job_overflow_witness :
  send_weekly_report_job w_first_week st_empty = (Exc OverflowError, st_empty).
Proof.
  exact (proj1 (weekly_report_job_overflow w_first_week st_empty
                  ltac:(vm_compute; repeat split; discriminate))
           ltac:(vm_compute; discriminate)).
Defined.



Lemma initialize_scheduler_outcome_witness :
  fst (Sched.initialize_scheduler true sched_stale) = Sched.SOk true /\
  Sched.jobs (snd (Sched.initialize_scheduler true sched_stale)) = [].
Proof.
  pose proof (proj2 (initialize_scheduler_outcome true sched_stale) eq_refl) as H.
  revert H. destruct (Sched.initialize_scheduler true sched_stale) as [r s'].
  intros (Hr & _ & _ & _ & _ & Hj). split; [exact Hr|]. simpl. rewrite Hj. reflexivity.
Defined.

Lemma lifespan_lifecycle_witness :
  Sched.starts (snd (Sched.lifespan true sched_empty)) = 1%nat /\
  Sched.running (snd (Sched.lifespan true sched_empty)) = false /\
  Sched.shutdowns (snd (Sched.lifespan true sched_empty)) = 1%nat.
Proof. exact (lifespan_lifecycle true sched_empty eq_refl). Defined.

Lemma lifespan_registers_only_on_empty_store_witness :
  Sched.jobs (snd (Sched.lifespan_startup true sched_stale)) =
    [JobStore.upload_job; JobStore.report_job].
Proof. exact (lifespan_registers_only_on_empty_store true sched_stale eq_refl). Defined.

Lemma schedule_jobs_outcome_witness :
  fst (Sched.schedule_jobs true sched_old) = Sched.SExc Sched.AttributeError /\
  Sched.jobs (snd (Sched.schedule_jobs true sched_old)) = store_old.
Proof.
  rewrite (proj1 (schedule_jobs_outcome true sched_old) eq_refl). split; reflexivity.
Defined.
